(** * Handshake detection stream (beast_HandshakeDetectStream.h)

    A shallow embedding of [HandshakeDetectStreamType]: the buffered
    accumulation loop that feeds a pluggable detection logic, in its
    blocking form ([do_handshake]) and in its completion-driven form
    ([async_do_handshake] / [on_async_read_some]).

    Sizes are [std::size_t] in the source.  They are natural numbers here:
    the only subtraction, [needed - available], is evaluated in the source
    after [available < needed] has been established (by the branch of the
    blocking loop, by the contract check of the completion-driven one), so
    no wrap-around is reachable. *)

From Stdlib Require Import List Arith Lia Bool ZArith.
From Stdlib Require Import Strings.Byte.
Import ListNotations.

Set Implicit Arguments.

(** ** boost::system::error_code *)

Inductive error_category := system_category | misc_category | generic_category.

Record error_code := mk_error_code {
  ec_value : Z;
  ec_category : error_category }.

(** [error_code ()]: value 0 in the system category. *)
Definition error_code_default : error_code := mk_error_code 0 system_category.

(** [! ec]: true when the code carries no error. *)
Definition ec_not (ec : error_code) : bool := (ec_value ec =? 0)%Z.

(** boost::asio::error::eof. *)
Definition eof : error_code := mk_error_code 2 misc_category.

(** ** boost::asio::streambuf

    The arena: an input (readable) sequence and an output (writable)
    sequence.  [prepare n] hands out [n] writable bytes, [commit n] moves
    at most the prepared amount from the output to the end of the input
    sequence, [consume n] drops at most [size] bytes from the front. *)

Record streambuf := mk_streambuf {
  input_seq : list byte;
  output_seq : list byte }.

Definition streambuf_empty : streambuf := mk_streambuf [] [].

Definition size (sb : streambuf) : nat := length (input_seq sb).

Definition data (sb : streambuf) : list byte := input_seq sb.

Definition prepare (n : nat) (sb : streambuf) : streambuf :=
  mk_streambuf (input_seq sb) (firstn n (output_seq sb ++ repeat x00 n)).

Definition commit (n : nat) (sb : streambuf) : streambuf :=
  mk_streambuf (input_seq sb ++ firstn n (output_seq sb))
               (skipn n (output_seq sb)).

(** [boost::asio::buffer_size] of the prepared (mutable) buffers. *)
Definition buffer_size (sb : streambuf) : nat := length (output_seq sb).

Definition consume (n : nat) (sb : streambuf) : streambuf :=
  mk_streambuf (skipn n (input_seq sb)) (output_seq sb).

(** [boost::asio::buffer_copy (target, source)] where the target is the
    prepared output sequence: copies as many bytes as fit and returns the
    count. *)
Definition buffer_copy (source : list byte) (sb : streambuf) : streambuf * nat :=
  let k := Nat.min (length source) (buffer_size sb) in
  (mk_streambuf (input_seq sb) (firstn k source ++ skipn k (output_seq sb)), k).

(** ** The transport (template parameter [Stream])

    The next layer is an external collaborator.  It is a script of what
    the peer sends: data segments and failures; once the script is used up
    every read reports end of stream.  [read_some] never hands out more
    bytes than the offered buffer holds and reports zero bytes together
    with an error. *)

Inductive Segment :=
| Data (bs : list byte)
| Failure (ec : error_code).

Definition Stream := list Segment.

Definition read_some (t : Stream) (n : nat) : list byte * error_code * Stream :=
  match t with
  | [] => ([], eof, [])
  | Failure ec :: t' => ([], ec, t')
  | Data bs :: t' =>
      if length bs <=? n then (bs, error_code_default, t')
      else (firstn n bs, error_code_default, Data (skipn n bs) :: t')
  end.

Definition segment_weight (s : Segment) : nat :=
  match s with
  | Data bs => S (length bs)
  | Failure _ => 1
  end.

Fixpoint weight (t : Stream) : nat :=
  match t with
  | [] => 0
  | s :: t' => segment_weight s + weight t'
  end.

(** The bytes a script still holds before its first failure. *)
Fixpoint pending_bytes (t : Stream) : list byte :=
  match t with
  | Data bs :: t' => bs ++ pending_bytes t'
  | _ => []
  end.

Fixpoint data_only (t : Stream) : bool :=
  match t with
  | [] => true
  | Data _ :: t' => data_only t'
  | Failure _ :: _ => false
  end.

(** ** The detection logic ([HandshakeDetectLogicType <Logic>])

    The wrapper around the policy is declared outside this header; the
    loop uses it only through these five members, which are taken as an
    interface.  [get ()] returns the logic object itself, so the verdict
    handed to the callback is the logic state. *)

Class HandshakeDetectLogic (L : Type) := {
  logic_new : L;
  max_needed : L -> nat;
  analyze : list byte -> L -> L;
  finished : L -> bool;
  bytes_consumed : L -> nat }.

(** ** Completion handlers ([ErrorCall], [TransferCall]) *)

Inductive ErrorCall := ErrorCall_null | ErrorCall_of (handler : nat).
Inductive TransferCall := TransferCall_null | TransferCall_of (handler : nat).

Definition ErrorCall_isNull (h : ErrorCall) : bool :=
  match h with ErrorCall_null => true | ErrorCall_of _ => false end.

Definition TransferCall_isNull (h : TransferCall) : bool :=
  match h with TransferCall_null => true | TransferCall_of _ => false end.

Section Detector.

Context {L : Type} `{HandshakeDetectLogic L}.

(** ** HandshakeDetectStream::Callback

    [on_detect] receives the error code by mutable reference; what it
    leaves there is its result here.  [on_async_detect] returns nothing to
    the loop; its calls are recorded in the trace. *)

Record Callback := mk_Callback {
  on_detect : L -> error_code -> list byte -> error_code }.

(** The [bassert] sites of the header.  [bassert] is a debug assertion;
    execution goes on after it, and the trace keeps what it evaluated to. *)
Inductive Assertion :=
| consumed_in_bounds          (* consumed <= m_buffer.size () *)
| origHandler_isNull          (* m_origHandler.isNull () *)
| origHandler_notNull         (* ! m_origHandler.isNull () *)
| origBufferedHandler_isNull. (* m_origBufferedHandler.isNull () *)

(** What a run does, in order. *)
Inductive Event :=
| EvRead (requested : nat) (got : list byte) (ec : error_code)
| EvAnalyze (bytes : list byte)
| EvBassert (site : Assertion) (holds : bool)
| EvConsume (consumed : nat) (readable : nat)
| EvOnDetect (logic : L) (ec : error_code) (buffers : list byte)
| EvOnAsyncDetectError (logic : L) (ec : error_code) (buffers : list byte)
                       (origHandler : ErrorCall)
| EvOnAsyncDetectTransfer (logic : L) (ec : error_code) (buffers : list byte)
                          (origHandler : TransferCall)
| EvFatal.

Record HandshakeDetectStreamType := mk_detector {
  m_callback : Callback;
  m_next_layer : Stream;
  m_buffer : streambuf;
  m_logic : L;
  m_origHandler : ErrorCall;
  m_origBufferedHandler : TransferCall }.

Definition with_next_layer (d : HandshakeDetectStreamType) (t : Stream) :=
  mk_detector (m_callback d) t (m_buffer d) (m_logic d)
              (m_origHandler d) (m_origBufferedHandler d).

Definition with_buffer (d : HandshakeDetectStreamType) (sb : streambuf) :=
  mk_detector (m_callback d) (m_next_layer d) sb (m_logic d)
              (m_origHandler d) (m_origBufferedHandler d).

Definition with_logic (d : HandshakeDetectStreamType) (l : L) :=
  mk_detector (m_callback d) (m_next_layer d) (m_buffer d) l
              (m_origHandler d) (m_origBufferedHandler d).

Definition with_origHandler (d : HandshakeDetectStreamType) (h : ErrorCall) :=
  mk_detector (m_callback d) (m_next_layer d) (m_buffer d) (m_logic d)
              h (m_origBufferedHandler d).

Definition with_origBufferedHandler (d : HandshakeDetectStreamType)
    (h : TransferCall) :=
  mk_detector (m_callback d) (m_next_layer d) (m_buffer d) (m_logic d)
              (m_origHandler d) h.

(** The constructor: callback and next layer from the arguments, every
    other member default-constructed. *)
Definition construct (callback : Callback) (arg : Stream) :=
  mk_detector callback arg streambuf_empty logic_new
              ErrorCall_null TransferCall_null.

(** [m_buffer.commit (buffer_copy (m_buffer.prepare (buffer_size (buffers)),
    buffers))], used by [fill] and by [do_handshake]. *)
Definition transfer (buffers : list byte) (sb : streambuf) : streambuf :=
  let '(sb', n) := buffer_copy buffers (prepare (length buffers) sb) in
  commit n sb'.

Definition fill (buffers : list byte) (d : HandshakeDetectStreamType) :=
  with_buffer d (transfer buffers (m_buffer d)).

(** How a run ends. *)
Inductive Status :=
| Returned (ec : error_code)   (* [do_handshake] returned [ec] *)
| Delivered                    (* [on_async_detect] was called *)
| Aborted                      (* [check_postcondition] failed *)
| OutOfFuel.

Record Run := mk_Run {
  status : Status;
  final : HandshakeDetectStreamType;
  trace : list Event }.

Definition prepend (evs : list Event) (r : Run) : Run :=
  mk_Run (status r) (final r) (evs ++ trace r).

(** ** The blocking loop *)

(** [m_buffer.commit (m_next_layer.read_some (m_buffer.prepare (n), ec))]:
    the transport is offered the prepared region and fills its front. *)
Definition read_into (d : HandshakeDetectStreamType) (n : nat)
  : HandshakeDetectStreamType * error_code * list Event :=
  let buffers := prepare n (m_buffer d) in
  let requested := buffer_size buffers in
  let '(got, ec, t') := read_some (m_next_layer d) requested in
  let '(sb, k) := buffer_copy got buffers in
  (with_next_layer (with_buffer d (commit k sb)) t', ec,
   [EvRead requested got ec]).

Inductive Step :=
| Again (d : HandshakeDetectStreamType) (ec : error_code)
| Halt (st : Status) (d : HandshakeDetectStreamType).

(** Modelled from the spec: [check_postcondition] is a macro defined
    outside this header.  Section 7 of the specification makes its failure
    fatal ("must abort rather than be reported through the normal error
    channel"): a failed check ends the run as [Aborted] after an [EvFatal]
    event. *)
Definition check_postcondition (cond : bool) : bool := cond.

(** One pass through the body of the [do ... while (! ec)] loop. *)
Definition do_handshake_body (d : HandshakeDetectStreamType) (ec : error_code)
  : Step * list Event :=
  let available := size (m_buffer d) in
  let needed := max_needed (m_logic d) in
  let '(d1, ec1, ev1) :=
    if available <? needed then read_into d (needed - available)
    else (d, ec, []) in
  if ec_not ec1 then
    let bytes := data (m_buffer d1) in
    let d2 := with_logic d1 (analyze bytes (m_logic d1)) in
    if finished (m_logic d2) then
      let consumed := bytes_consumed (m_logic d2) in
      let readable := size (m_buffer d2) in
      let d3 := with_buffer d2 (consume consumed (m_buffer d2)) in
      let ec2 := on_detect (m_callback d3) (m_logic d3) ec1 (data (m_buffer d3)) in
      (Halt (Returned ec2) d3,
       ev1 ++ [EvAnalyze bytes;
               EvBassert consumed_in_bounds (consumed <=? readable);
               EvConsume consumed readable;
               EvOnDetect (m_logic d3) ec1 (data (m_buffer d3))])
    else if check_postcondition (available <? needed) then
      (Again d2 ec1, ev1 ++ [EvAnalyze bytes])
    else
      (Halt Aborted d2, ev1 ++ [EvAnalyze bytes; EvFatal])
  else
    (Halt (Returned ec1) d1, ev1).

Fixpoint do_handshake_loop (fuel : nat) (d : HandshakeDetectStreamType)
    (ec : error_code) : Run :=
  match fuel with
  | O => mk_Run OutOfFuel d []
  | S fuel' =>
      match do_handshake_body d ec with
      | (Again d' ec', evs) => prepend evs (do_handshake_loop fuel' d' ec')
      | (Halt st d', evs) => mk_Run st d' evs
      end
  end.

(** The loop run to its end.  Every pass that does not end the loop has
    read from the transport, so the weight of the script bounds the number
    of passes. *)
Definition do_handshake_run (d : HandshakeDetectStreamType) (ec : error_code)
  : Run :=
  do_handshake_loop (S (weight (m_next_layer d))) d ec.

(** [do_handshake (type, ec, buffers)].  [ec] is the caller's slot as it
    is on entry; the first statement overwrites it. *)
Definition do_handshake (d : HandshakeDetectStreamType) (ec : error_code)
    (buffers : list byte) : Run :=
  let ec := error_code_default in
  let d0 := with_buffer d (transfer buffers (m_buffer d)) in
  do_handshake_run d0 ec.

Definition handshake (d : HandshakeDetectStreamType) (ec : error_code) : Run :=
  do_handshake d ec [].

Definition handshake_buffered (d : HandshakeDetectStreamType)
    (buffers : list byte) (ec : error_code) : Run :=
  do_handshake d ec buffers.

(** ** The completion-driven loop

    [BEAST_ASIO_HAS_BUFFEREDHANDSHAKE] is taken as set, so that both
    completion signatures exist. *)

(** What one resumption leaves behind: a read in flight on the prepared
    region, a delivery to the callback, or a failed contract check. *)
Inductive Resumption :=
| Pending (d : HandshakeDetectStreamType)
| Done (d : HandshakeDetectStreamType)
| Fatal (d : HandshakeDetectStreamType).

(** The tail shared by the verdict path and the error path of
    [on_async_read_some]: pick the callback operation by which original
    handler is set. *)
Definition deliver (d : HandshakeDetectStreamType) (ec : error_code)
  : list Event :=
  if negb (TransferCall_isNull (m_origBufferedHandler d)) then
    [EvBassert origHandler_isNull (ErrorCall_isNull (m_origHandler d));
     EvOnAsyncDetectTransfer (m_logic d) ec (data (m_buffer d))
                             (m_origBufferedHandler d)]
  else
    [EvBassert origHandler_notNull (negb (ErrorCall_isNull (m_origHandler d)));
     EvOnAsyncDetectError (m_logic d) ec (data (m_buffer d))
                          (m_origHandler d)].

Definition on_async_read_some (d : HandshakeDetectStreamType)
    (ec : error_code) (bytes_transferred : nat) : Resumption * list Event :=
  if ec_not ec then
    let d1 := with_buffer d (commit bytes_transferred (m_buffer d)) in
    let available := size (m_buffer d1) in
    let needed := max_needed (m_logic d1) in
    let '(d2, ev2) :=
      if 0 <? bytes_transferred then
        (with_logic d1 (analyze (data (m_buffer d1)) (m_logic d1)),
         [EvAnalyze (data (m_buffer d1))])
      else (d1, []) in
    if finished (m_logic d2) then
      let consumed := bytes_consumed (m_logic d2) in
      let readable := size (m_buffer d2) in
      let d3 := with_buffer d2 (consume consumed (m_buffer d2)) in
      (Done d3,
       ev2 ++ [EvBassert consumed_in_bounds (consumed <=? readable);
               EvConsume consumed readable]
           ++ deliver d3 ec)
    else if check_postcondition (available <? needed) then
      (Pending (with_buffer d2 (prepare (needed - available) (m_buffer d2))),
       ev2)
    else
      (Fatal d2, ev2 ++ [EvFatal])
  else
    (Done d, deliver d ec).

(** [async_do_handshake (type, buffers)]: the caller's bytes are copied
    into the prepared region and committed by the bootstrap resumption. *)
Definition async_do_handshake (d : HandshakeDetectStreamType)
    (buffers : list byte) : Resumption * list Event :=
  let '(sb, bytes_transferred) :=
    buffer_copy buffers (prepare (length buffers) (m_buffer d)) in
  on_async_read_some (with_buffer d sb) error_code_default bytes_transferred.

(** The io_service completing the read in flight: the transport writes
    into the prepared region and the bound handler runs with the error
    and the byte count. *)
Definition complete_read (d : HandshakeDetectStreamType)
  : Resumption * list Event :=
  let requested := buffer_size (m_buffer d) in
  let '(got, ec, t') := read_some (m_next_layer d) requested in
  let '(sb, k) := buffer_copy got (m_buffer d) in
  let '(r, evs) := on_async_read_some (with_next_layer (with_buffer d sb) t') ec k in
  (r, EvRead requested got ec :: evs).

Fixpoint io_run (fuel : nat) (r : Resumption) : Run :=
  match r with
  | Done d => mk_Run Delivered d []
  | Fatal d => mk_Run Aborted d []
  | Pending d =>
      match fuel with
      | O => mk_Run OutOfFuel d []
      | S fuel' =>
          let '(r', evs) := complete_read d in
          prepend evs (io_run fuel' r')
      end
  end.

Definition resumption_detector (r : Resumption) : HandshakeDetectStreamType :=
  match r with Pending d => d | Done d => d | Fatal d => d end.

(** The io_service run to its end.  Every completion but the last has
    taken bytes from the transport, so the weight of the script bounds the
    number of completions. *)
Definition io_service_run (r : Resumption) : Run :=
  io_run (S (weight (m_next_layer (resumption_detector r)))) r.

(** A started operation together with the io_service run that completes
    it. *)
Definition async_run (start : Resumption * list Event) : Run :=
  let '(r, evs) := start in
  prepend evs (io_service_run r).

(** [async_handshake (type, handler)]. *)
Definition async_handshake (d : HandshakeDetectStreamType) (handler : nat)
  : Run :=
  let d1 := with_origHandler d (ErrorCall_of handler) in
  prepend [EvBassert origBufferedHandler_isNull
                     (TransferCall_isNull (m_origBufferedHandler d1))]
          (async_run (async_do_handshake d1 [])).

(** [async_handshake (type, buffers, handler)]. *)
Definition async_handshake_buffered (d : HandshakeDetectStreamType)
    (buffers : list byte) (handler : nat) : Run :=
  let d1 := with_origBufferedHandler d (TransferCall_of handler) in
  prepend [EvBassert origHandler_isNull (ErrorCall_isNull (m_origHandler d1))]
          (async_run (async_do_handshake d1 buffers)).

(** ** Reading a trace *)

Definition is_read (e : Event) : bool :=
  match e with EvRead _ _ _ => true | _ => false end.

Definition is_analyze (e : Event) : bool :=
  match e with EvAnalyze _ => true | _ => false end.

(** The calls made on the callback, as (verdict, error, leftover). *)
Definition delivery_of (e : Event) : option (L * error_code * list byte) :=
  match e with
  | EvOnDetect l ec bs => Some (l, ec, bs)
  | EvOnAsyncDetectError l ec bs _ => Some (l, ec, bs)
  | EvOnAsyncDetectTransfer l ec bs _ => Some (l, ec, bs)
  | _ => None
  end.

Fixpoint deliveries (evs : list Event) : list (L * error_code * list byte) :=
  match evs with
  | [] => []
  | e :: evs' =>
      match delivery_of e with
      | Some x => x :: deliveries evs'
      | None => deliveries evs'
      end
  end.

(** The bytes the transport handed over, in order. *)
Fixpoint bytes_read (evs : list Event) : list byte :=
  match evs with
  | [] => []
  | EvRead _ got _ :: evs' => got ++ bytes_read evs'
  | _ :: evs' => bytes_read evs'
  end.

Definition reads (evs : list Event) : list Event := filter is_read evs.

End Detector.

Arguments Callback L : clear implicits.
Arguments Event L : clear implicits.
Arguments HandshakeDetectStreamType L : clear implicits.
Arguments Run L : clear implicits.
Arguments Step L : clear implicits.
Arguments Resumption L : clear implicits.

(** ** Two detection logics used as test policies *)

(** A one-byte peek: [0x16] opens an encrypted handshake, anything else is
    plaintext; nothing is consumed. *)
Inductive PeekVerdict := Undecided | Encrypted | Plaintext.

Definition peek_analyze (bytes : list byte) (v : PeekVerdict) : PeekVerdict :=
  match bytes with
  | [] => v
  | b :: _ => if Byte.eqb b x16 then Encrypted else Plaintext
  end.

Definition peek_finished (v : PeekVerdict) : bool :=
  match v with Undecided => false | _ => true end.

#[export] Instance PeekLogic : HandshakeDetectLogic PeekVerdict := {|
  logic_new := Undecided;
  max_needed := fun _ => 1;
  analyze := peek_analyze;
  finished := peek_finished;
  bytes_consumed := fun _ => 0 |}.

(** A logic that breaks the re-scan contract: it concludes on its second
    [analyze] call whatever the bytes are. *)
Definition CountingLogic : HandshakeDetectLogic nat := {|
  logic_new := 0;
  max_needed := fun _ => 1;
  analyze := fun _ n => S n;
  finished := fun n => 2 <=? n;
  bytes_consumed := fun _ => 0 |}.

(** A two-byte logic that can conclude early: a first byte other than
    [0x16] settles plaintext at once, [0x16] waits for a second byte. *)
Definition early_analyze (bytes : list byte) (v : PeekVerdict) : PeekVerdict :=
  match bytes with
  | [] => v
  | b :: rest =>
      if Byte.eqb b x16
      then match rest with [] => v | _ :: _ => Encrypted end
      else Plaintext
  end.

Definition EarlyLogic : HandshakeDetectLogic PeekVerdict := {|
  logic_new := Undecided;
  max_needed := fun _ => 2;
  analyze := early_analyze;
  finished := peek_finished;
  bytes_consumed := fun _ => 0 |}.

(** A callback that leaves the error code as it finds it. *)
Definition keep_ec {L : Type} : Callback L :=
  mk_Callback (fun _ ec _ => ec).

(** A callback that reports a protocol error whatever the verdict. *)
Definition reject_ec {L : Type} : Callback L :=
  mk_Callback (fun _ _ _ => mk_error_code 71 generic_category).


(** ** The passes of the two loops, case by case *)

Section Passes.

Context {L : Type} `{HandshakeDetectLogic L}.

(** [m_logic.analyze (m_buffer.data ())]. *)
Definition analysed (d : HandshakeDetectStreamType L) :=
  with_logic d (analyze (data (m_buffer d)) (m_logic d)).

(** [m_buffer.consume (m_logic.bytes_consumed ())]. *)
Definition concluded (d : HandshakeDetectStreamType L) :=
  with_buffer d (consume (bytes_consumed (m_logic d)) (m_buffer d)).

Definition conclusion_events (d : HandshakeDetectStreamType L)
  : list (Event L) :=
  [EvBassert consumed_in_bounds (bytes_consumed (m_logic d) <=? size (m_buffer d));
   EvConsume (bytes_consumed (m_logic d)) (size (m_buffer d))].

Definition on_detect_event (d : HandshakeDetectStreamType L) (ec : error_code)
  : Event L :=
  EvOnDetect (m_logic d) ec (data (m_buffer d)).

Definition on_detect_result (d : HandshakeDetectStreamType L) (ec : error_code)
  : error_code :=
  on_detect (m_callback d) (m_logic d) ec (data (m_buffer d)).

(** The six ways through the body of the blocking loop: the arena holds
    enough ("idle") or a read is issued, and then the error, the verdict,
    or neither. *)
Inductive pass (d : HandshakeDetectStreamType L) (ec : error_code)
  : Step L * list (Event L) -> Prop :=
| pass_idle_failed :
    max_needed (m_logic d) <= size (m_buffer d) ->
    ec_not ec = false ->
    pass d ec (Halt (Returned ec) d, [])
| pass_idle_verdict :
    max_needed (m_logic d) <= size (m_buffer d) ->
    ec_not ec = true ->
    finished (m_logic (analysed d)) = true ->
    pass d ec
      (Halt (Returned (on_detect_result (concluded (analysed d)) ec))
            (concluded (analysed d)),
       EvAnalyze (data (m_buffer d))
         :: conclusion_events (analysed d)
         ++ [on_detect_event (concluded (analysed d)) ec])
| pass_idle_stuck :
    max_needed (m_logic d) <= size (m_buffer d) ->
    ec_not ec = true ->
    finished (m_logic (analysed d)) = false ->
    pass d ec (Halt Aborted (analysed d),
               [EvAnalyze (data (m_buffer d)); EvFatal])
| pass_read_failed got d1 ec1 :
    size (m_buffer d) < max_needed (m_logic d) ->
    read_into d (max_needed (m_logic d) - size (m_buffer d))
    = (d1, ec1, [EvRead (max_needed (m_logic d) - size (m_buffer d)) got ec1]) ->
    ec_not ec1 = false ->
    pass d ec
      (Halt (Returned ec1) d1,
       [EvRead (max_needed (m_logic d) - size (m_buffer d)) got ec1])
| pass_read_verdict got d1 ec1 :
    size (m_buffer d) < max_needed (m_logic d) ->
    read_into d (max_needed (m_logic d) - size (m_buffer d))
    = (d1, ec1, [EvRead (max_needed (m_logic d) - size (m_buffer d)) got ec1]) ->
    ec_not ec1 = true ->
    finished (m_logic (analysed d1)) = true ->
    pass d ec
      (Halt (Returned (on_detect_result (concluded (analysed d1)) ec1))
            (concluded (analysed d1)),
       EvRead (max_needed (m_logic d) - size (m_buffer d)) got ec1
         :: EvAnalyze (data (m_buffer d1))
         :: conclusion_events (analysed d1)
         ++ [on_detect_event (concluded (analysed d1)) ec1])
| pass_read_again got d1 ec1 :
    size (m_buffer d) < max_needed (m_logic d) ->
    read_into d (max_needed (m_logic d) - size (m_buffer d))
    = (d1, ec1, [EvRead (max_needed (m_logic d) - size (m_buffer d)) got ec1]) ->
    ec_not ec1 = true ->
    finished (m_logic (analysed d1)) = false ->
    pass d ec
      (Again (analysed d1) ec1,
       [EvRead (max_needed (m_logic d) - size (m_buffer d)) got ec1;
        EvAnalyze (data (m_buffer d1))]).

(** [m_buffer.commit (bytes_transferred)] on entry to a resumption. *)
Definition committed (d : HandshakeDetectStreamType L) (n : nat) :=
  with_buffer d (commit n (m_buffer d)).

(** The conditional [analyze] of a resumption. *)
Definition digested (d : HandshakeDetectStreamType L) (n : nat) :=
  if 0 <? n then analysed (committed d n) else committed d n.

Definition digest_events (d : HandshakeDetectStreamType L) (n : nat)
  : list (Event L) :=
  if 0 <? n then [EvAnalyze (data (m_buffer (committed d n)))] else [].

(** The read scheduled at the end of a resumption. *)
Definition rearmed (d : HandshakeDetectStreamType L) (n : nat) :=
  with_buffer (digested d n)
    (prepare (max_needed (m_logic d) - size (m_buffer (committed d n)))
             (m_buffer (digested d n))).

(** The four ways through [on_async_read_some]. *)
Inductive resumed (d : HandshakeDetectStreamType L) (ec : error_code) (n : nat)
  : Resumption L * list (Event L) -> Prop :=
| resumed_failed :
    ec_not ec = false ->
    resumed d ec n (Done d, deliver d ec)
| resumed_verdict :
    ec_not ec = true ->
    finished (m_logic (digested d n)) = true ->
    resumed d ec n
      (Done (concluded (digested d n)),
       digest_events d n ++ conclusion_events (digested d n)
         ++ deliver (concluded (digested d n)) ec)
| resumed_pending :
    ec_not ec = true ->
    finished (m_logic (digested d n)) = false ->
    size (m_buffer (committed d n)) < max_needed (m_logic d) ->
    resumed d ec n (Pending (rearmed d n), digest_events d n)
| resumed_stuck :
    ec_not ec = true ->
    finished (m_logic (digested d n)) = false ->
    max_needed (m_logic d) <= size (m_buffer (committed d n)) ->
    resumed d ec n (Fatal (digested d n), digest_events d n ++ [EvFatal]).

(** The detector once the transport has written [got] into the prepared
    region and moved on to [t']. *)
Definition written (d : HandshakeDetectStreamType L) (got : list byte)
    (t' : Stream) :=
  with_next_layer (with_buffer d (fst (buffer_copy got (m_buffer d)))) t'.

Definition resumption_weight (r : Resumption L) : nat :=
  weight (m_next_layer (resumption_detector r)).

(** One resumption and everything the io_service runs after it. *)
Definition async_resume (d : HandshakeDetectStreamType L) (ec : error_code)
    (n : nat) : Run L :=
  async_run (on_async_read_some d ec n).

(** A resumption whose pending read offers a non-empty buffer. *)
Definition armed (r : Resumption L) : Prop :=
  match r with
  | Pending d => 0 < buffer_size (m_buffer d)
  | _ => True
  end.

End Passes.

(** ** Contracts a detection logic may or may not honour *)

Section Contracts.

Context {L : Type} `{HandshakeDetectLogic L}.

(** [bytes_consumed] never exceeds the bytes last given to [analyze]. *)
Definition consumed_within_analysed : Prop :=
  forall (bytes : list byte) (s : L),
    bytes_consumed (analyze bytes s) <= length bytes.

(** [analyze] is a re-scan: a second call on the same bytes changes
    nothing. *)
Definition rescan_idempotent : Prop :=
  forall (bytes : list byte) (s : L),
    analyze bytes (analyze bytes s) = analyze bytes s.

(** The verdict, which is the logic object itself, cannot change before
    [max_needed] bytes are present. *)
Definition verdict_waits_for_need : Prop :=
  forall (bytes : list byte) (s : L),
    length bytes < max_needed s -> analyze bytes s = s.

(** The consumed-bounds assertion held and [consume] was asked for no
    more than the arena could give. *)
Definition consume_in_bounds (e : Event L) : Prop :=
  match e with
  | EvConsume consumed readable => consumed <= readable
  | EvBassert consumed_in_bounds holds => holds = true
  | _ => True
  end.

(** ** Chunking

    What a run shows to its caller: how it ended, what the callback was
    given, and the logic and readable bytes it leaves. *)
Record Outcome := mk_Outcome {
  o_status : Status;
  o_deliveries : list (L * error_code * list byte);
  o_logic : L;
  o_buffered : list byte }.

Definition observe (r : Run L) : Outcome :=
  mk_Outcome (status r) (deliveries (trace r))
             (m_logic (final r)) (data (m_buffer (final r))).

(** The verdict step on readable bytes [bytes] with the logic at [s]. *)
Definition verdict_outcome (cb : Callback L) (bytes : list byte) (s : L)
  : Outcome :=
  let leftover := skipn (bytes_consumed s) bytes in
  mk_Outcome (Returned (on_detect cb s error_code_default leftover))
             [(s, error_code_default, leftover)] s leftover.

(** The blocking loop fed from a plain byte sequence, one byte per read,
    until the sequence runs dry. *)
Fixpoint feed_blocking (cb : Callback L) (rest : list byte)
    (buffered : list byte) (s : L) {struct rest} : Outcome :=
  if max_needed s <=? length buffered then
    let s' := analyze buffered s in
    if finished s' then verdict_outcome cb buffered s'
    else mk_Outcome Aborted [] s' buffered
  else
    match rest with
    | [] => mk_Outcome (Returned eof) [] s buffered
    | b :: rest' =>
        let s' := analyze (buffered ++ [b]) s in
        if finished s' then verdict_outcome cb (buffered ++ [b]) s'
        else feed_blocking cb rest' (buffered ++ [b]) s'
    end.

(** The completion-driven loop, with a read pending, fed from a plain byte
    sequence one byte per completion. *)
Fixpoint feed_async (rest : list byte) (buffered : list byte) (s : L)
    {struct rest} : Outcome :=
  match rest with
  | [] => mk_Outcome Delivered [(s, eof, buffered)] s buffered
  | b :: rest' =>
      let s' := analyze (buffered ++ [b]) s in
      if finished s' then
        let leftover := skipn (bytes_consumed s') (buffered ++ [b]) in
        mk_Outcome Delivered [(s', error_code_default, leftover)] s' leftover
      else if length (buffered ++ [b]) <? max_needed s then
        feed_async rest' (buffered ++ [b]) s'
      else mk_Outcome Aborted [] s' (buffered ++ [b])
  end.

(** The sequence delivered as many one-byte reads. *)
Definition one_byte_reads (bytes : list byte) : Stream :=
  map (fun b => Data [b]) bytes.

(** The sequence delivered as a single large read. *)
Definition single_read (bytes : list byte) : Stream := [Data bytes].

(** ** The contract check *)

(** "Once the logic is unfinished while the arena holds what it asked for,
    the loop aborts": what the specification asks of the blocking variant
    at the top of a pass. *)
Definition aborts_once_need_is_met (d : HandshakeDetectStreamType L) : Prop :=
  finished (m_logic d) = false ->
  max_needed (m_logic d) <= size (m_buffer d) ->
  status (do_handshake_run d error_code_default) = Aborted.

(** ** Delivery of a failed read *)

(** "Whenever a transport read fails, [on_detect] is called with that
    error": what the specification asks of the blocking variant. *)
Definition on_detect_receives_read_error (r : Run L) : Prop :=
  forall pre requested got e post,
    trace r = pre ++ EvRead requested got e :: post ->
    ec_not e = false ->
    exists l leftover, In (EvOnDetect l e leftover) (trace r).

(** ** The pending continuation *)

(** What the events of the resumptions may be when the original handlers
    are [oh] and [obh]: deliveries pick the operation by [obh], carry the
    handler that is set, and the handler assertions evaluate as the members
    say.  (The assertion on [m_origBufferedHandler] belongs to the entry
    point, not to the resumptions.) *)
Definition handlers_respected (oh : ErrorCall) (obh : TransferCall)
    (e : Event L) : Prop :=
  match e with
  | EvOnAsyncDetectError _ _ _ h => TransferCall_isNull obh = true /\ h = oh
  | EvOnAsyncDetectTransfer _ _ _ h => TransferCall_isNull obh = false /\ h = obh
  | EvOnDetect _ _ _ => False
  | EvBassert origHandler_isNull holds =>
      TransferCall_isNull obh = false /\ holds = ErrorCall_isNull oh
  | EvBassert origHandler_notNull holds =>
      TransferCall_isNull obh = true /\ holds = negb (ErrorCall_isNull oh)
  | EvBassert origBufferedHandler_isNull _ => False
  | _ => True
  end.

(** Every delivery is [on_async_detect] with the error-only handler, and
    every handler assertion held. *)
Definition goes_to_error_only (handler : nat) (e : Event L) : Prop :=
  match e with
  | EvOnAsyncDetectError _ _ _ h => h = ErrorCall_of handler
  | EvOnAsyncDetectTransfer _ _ _ _ => False
  | EvOnDetect _ _ _ => False
  | EvBassert consumed_in_bounds _ => True
  | EvBassert _ holds => holds = true
  | _ => True
  end.

(** Every delivery is [on_async_detect] with the error-plus-count handler,
    and every handler assertion held. *)
Definition goes_to_error_plus_count (handler : nat) (e : Event L) : Prop :=
  match e with
  | EvOnAsyncDetectTransfer _ _ _ h => h = TransferCall_of handler
  | EvOnAsyncDetectError _ _ _ _ => False
  | EvOnDetect _ _ _ => False
  | EvBassert consumed_in_bounds _ => True
  | EvBassert _ holds => holds = true
  | _ => True
  end.

End Contracts.

Arguments Outcome L : clear implicits.
Arguments consumed_within_analysed L {_}.
Arguments rescan_idempotent L {_}.
Arguments verdict_waits_for_need L {_}.

(** ** Detectors used as test inputs *)

(** One byte already filled, nothing left on the transport. *)
Definition filled_peek_detector : HandshakeDetectStreamType PeekVerdict :=
  fill [x16] (construct keep_ec []).

(** The early-concluding logic in front of a transport holding "ET". *)
Definition early_detector : HandshakeDetectStreamType PeekVerdict :=
  construct (H := EarlyLogic) keep_ec [Data [x45; x54]].

(** The counting logic before its first pass and after it. *)
Definition counting_detector : HandshakeDetectStreamType nat :=
  construct (H := CountingLogic) keep_ec [Data [x16]].

Definition counting_detector_after_one_pass : HandshakeDetectStreamType nat :=
  mk_detector keep_ec [] (mk_streambuf [x16] []) 1
              ErrorCall_null TransferCall_null.

(** The counting logic, fresh, with one byte already in the arena. *)
Definition counting_detector_holding_one : HandshakeDetectStreamType nat :=
  mk_detector keep_ec [] (mk_streambuf [x16] []) 0
              ErrorCall_null TransferCall_null.

(** ** Further contracts and trace readings *)

Section FurtherContracts.

Context {L : Type} `{HandshakeDetectLogic L}.

(** [max_needed] does not move when the logic analyzes. *)
Definition constant_need : Prop :=
  forall (bytes : list byte) (s : L),
    max_needed (analyze bytes s) = max_needed s.

(** The logic concludes once it is shown as many bytes as it asked for. *)
Definition concludes_at_need : Prop :=
  forall (bytes : list byte) (s : L),
    max_needed s <= length bytes -> finished (analyze bytes s) = true.

(** The deliveries that carry no error: the verdicts. *)
Definition verdicts (r : Run L) : list (L * error_code * list byte) :=
  filter (fun x => ec_not (snd (fst x))) (deliveries (trace r)).

Definition o_verdicts (o : Outcome L) : list (L * error_code * list byte) :=
  filter (fun x => ec_not (snd (fst x))) (o_deliveries o).

(** Every [analyze] call of a trace is given exactly the bytes buffered so
    far: [buffered] at the start, extended by what each read returned. *)
Fixpoint sees_everything (buffered : list byte) (evs : list (Event L)) : Prop :=
  match evs with
  | [] => True
  | EvRead _ got _ :: evs' => sees_everything (buffered ++ got) evs'
  | EvAnalyze bytes :: evs' => bytes = buffered /\ sees_everything buffered evs'
  | _ :: evs' => sees_everything buffered evs'
  end.

(** How a blocking run can end. *)
Definition blocking_ending (cb : Callback L) (r : Run L) : Prop :=
  (exists pre l e leftover,
      trace r = pre ++ [EvOnDetect l e leftover] /\
      deliveries pre = [] /\
      ec_not e = true /\ finished l = true /\
      status r = Returned (on_detect cb l e leftover)) \/
  (exists pre requested e,
      trace r = pre ++ [EvRead requested [] e] /\
      deliveries (trace r) = [] /\
      ec_not e = false /\
      status r = Returned e) \/
  (exists pre,
      trace r = pre ++ [EvFatal] /\
      deliveries (trace r) = [] /\
      status r = Aborted).

(** How a completion-driven run can end. *)
Definition async_ending (r : Run L) : Prop :=
  (exists pre x l e leftover,
      trace r = pre ++ [x] /\
      delivery_of x = Some (l, e, leftover) /\
      deliveries pre = [] /\
      (ec_not e = true -> finished l = true) /\
      status r = Delivered) \/
  (exists pre,
      trace r = pre ++ [EvFatal] /\
      deliveries (trace r) = [] /\
      status r = Aborted).

End FurtherContracts.

Arguments constant_need L {_}.
Arguments concludes_at_need L {_}.

(** ** The re-scan contract, clause by clause *)

Section RescanContract.

Context {L : Type} `{HandshakeDetectLogic L}.

(** No verdict is reached before [max_needed] bytes are present. *)
Definition no_verdict_below_need : Prop :=
  forall (bytes : list byte) (s : L),
    finished s = false ->
    length bytes < max_needed s ->
    finished (analyze bytes s) = false.

(** [analyze] scans from offset 0: what it leaves after scanning longer
    bytes does not depend on an earlier scan of a prefix too short for a
    verdict. *)
Definition rescan_from_start : Prop :=
  forall (buffered more : list byte) (s : L),
    finished s = false ->
    length buffered < max_needed s ->
    analyze (buffered ++ more) (analyze buffered s)
    = analyze (buffered ++ more) s.

(** [max_needed] does not move before that many bytes are present. *)
Definition need_settled_below_need : Prop :=
  forall (bytes : list byte) (s : L),
    finished s = false ->
    length bytes < max_needed s ->
    max_needed (analyze bytes s) = max_needed s.

(** What a run hands to its caller: how it ended, the verdict and leftover
    bytes given to the callback, and the readable bytes left in the
    arena. *)
Definition View : Type :=
  (Status * list (L * error_code * list byte) * list byte)%type.

Definition view (r : Run L) : View :=
  (status r, deliveries (trace r), data (m_buffer (final r))).

(** The verdict step of the blocking loop. *)
Definition view_verdict (cb : Callback L) (bytes : list byte) (s : L) : View :=
  let leftover := skipn (bytes_consumed s) bytes in
  (Returned (on_detect cb s error_code_default leftover),
   [(s, error_code_default, leftover)], leftover).

(** A blocking pass that finds the need covered. *)
Definition settle (cb : Callback L) (bytes : list byte) (s : L) : View :=
  let s' := analyze bytes s in
  if finished s' then view_verdict cb bytes s' else (Aborted, [], bytes).

(** The blocking loop below the need, fed one byte per read.  Every scan
    starts from [base], the logic as it was when it asked for what is now
    being read; once that need is covered without a verdict, the next
    pass either finds the new need covered as well or reads on from the
    logic the scan left. *)
Fixpoint feed_blocking_view (cb : Callback L) (rest buffered : list byte)
    (base : L) {struct rest} : View :=
  match rest with
  | [] => (Returned eof, [], buffered)
  | b :: rest' =>
      let s' := analyze (buffered ++ [b]) base in
      if finished s' then view_verdict cb (buffered ++ [b]) s'
      else if length (buffered ++ [b]) <? max_needed base
      then feed_blocking_view cb rest' (buffered ++ [b]) base
      else if max_needed s' <=? length (buffered ++ [b])
      then settle cb (buffered ++ [b]) s'
      else feed_blocking_view cb rest' (buffered ++ [b]) s'
  end.

(** The completion-driven loop with a read pending, fed one byte per
    completion; [cur] is the logic as the last resumption left it. *)
Fixpoint feed_async_view (rest buffered : list byte) (cur base : L)
    {struct rest} : View :=
  match rest with
  | [] => (Delivered, [(cur, eof, buffered)], buffered)
  | b :: rest' =>
      let s' := analyze (buffered ++ [b]) base in
      if finished s' then
        let leftover := skipn (bytes_consumed s') (buffered ++ [b]) in
        (Delivered, [(s', error_code_default, leftover)], leftover)
      else if length (buffered ++ [b]) <? max_needed base
      then feed_async_view rest' (buffered ++ [b]) s' base
      else (Aborted, [], buffered ++ [b])
  end.

End RescanContract.

Arguments no_verdict_below_need L {_}.
Arguments need_settled_below_need L {_}.
Arguments rescan_from_start L {_}.
Arguments View L : clear implicits.

(** ** Two re-scan logics over three bytes *)

(** A logic that keeps the first three bytes of what it is shown and
    concludes once it has all three; one byte is consumed. *)
Definition PrefixLogic : HandshakeDetectLogic (list byte) := {|
  logic_new := [];
  max_needed := fun _ => 3;
  analyze := fun bytes _ => firstn 3 bytes;
  finished := fun s => 3 <=? length s;
  bytes_consumed := fun _ => 1 |}.

(** A logic that re-scans as well and concludes on three bytes, but whose
    [max_needed] drops to one once it has seen a single byte. *)
Definition DropLogic : HandshakeDetectLogic (list byte) := {|
  logic_new := [];
  max_needed := fun s => match s with [_] => 1 | _ => 3 end;
  analyze := fun bytes _ => bytes;
  finished := fun s => 3 <=? length s;
  bytes_consumed := fun _ => 0 |}.

Definition prefix_detector (t : Stream) : HandshakeDetectStreamType (list byte) :=
  construct (H := PrefixLogic) keep_ec t.

Definition drop_detector (t : Stream) : HandshakeDetectStreamType (list byte) :=
  construct (H := DropLogic) keep_ec t.

(** The dropping logic in front of a transport holding ['G'], as the
    bootstrap of [async_handshake] leaves it: a read of three bytes
    pending. *)
Definition drop_detector_armed : HandshakeDetectStreamType (list byte) :=
  mk_detector keep_ec [Data [x47]] (mk_streambuf [] [x00; x00; x00]) []
              (ErrorCall_of 7) TransferCall_null.

(** The same detector as the first completion leaves it: ['G'] analyzed,
    a read of two more bytes pending. *)
Definition drop_detector_rearmed : HandshakeDetectStreamType (list byte) :=
  mk_detector keep_ec [] (mk_streambuf [x47] [x00; x00]) [x47]
              (ErrorCall_of 7) TransferCall_null.
(** * Properties *)

Unset Implicit Arguments.

(** ** The arena *)

Lemma prepare_buffer_size (n : nat) (sb : streambuf) :
  buffer_size (prepare n sb) = n.
Proof.
  unfold buffer_size, prepare; simpl.
  rewrite length_firstn, length_app, repeat_length. lia.
Qed.

Lemma prepare_data (n : nat) (sb : streambuf) : data (prepare n sb) = data sb.
Proof. reflexivity. Qed.

Lemma firstn_own_length {A : Type} (xs ys : list A) :
  firstn (length xs) (xs ++ ys) = xs.
Proof.
  induction xs as [|x xs IH]; simpl; [reflexivity | now rewrite IH].
Qed.

Lemma skipn_own_length {A : Type} (xs ys : list A) :
  skipn (length xs) (xs ++ ys) = ys.
Proof.
  induction xs as [|x xs IH]; simpl; [reflexivity | exact IH].
Qed.

(** Bytes written into a large enough prepared region and then committed
    are appended, whole and in order, to the readable bytes. *)
Lemma buffer_copy_commit (got : list byte) (sb sb' : streambuf) (k : nat) :
  buffer_copy got sb = (sb', k) ->
  length got <= buffer_size sb ->
  data (commit k sb') = data sb ++ got.
Proof.
  unfold buffer_copy. intros [= <- <-] Hfit. unfold commit, data; simpl.
  rewrite (Nat.min_l _ _ Hfit), firstn_all, firstn_own_length. reflexivity.
Qed.

Lemma buffer_copy_count (got : list byte) (sb : streambuf) :
  length got <= buffer_size sb -> snd (buffer_copy got sb) = length got.
Proof. intros Hfit. unfold buffer_copy; simpl. now apply Nat.min_l. Qed.

Lemma buffer_copy_data (got : list byte) (sb : streambuf) :
  data (fst (buffer_copy got sb)) = data sb.
Proof. reflexivity. Qed.

Lemma transfer_data (buffers : list byte) (sb : streambuf) :
  data (transfer buffers sb) = data sb ++ buffers.
Proof.
  unfold transfer.
  destruct (buffer_copy buffers (prepare (length buffers) sb)) as [sb' n] eqn:E.
  rewrite (buffer_copy_commit _ _ _ _ E); [reflexivity|].
  now rewrite prepare_buffer_size.
Qed.

Lemma consume_data (n : nat) (sb : streambuf) :
  data (consume n sb) = skipn n (data sb).
Proof. reflexivity. Qed.

(** ** The transport *)

Lemma read_some_length (t : Stream) (n : nat) got ec t' :
  read_some t n = (got, ec, t') -> length got <= n.
Proof.
  destruct t as [|[bs|e] t]; simpl.
  - intros [= <- _ _]; simpl; lia.
  - destruct (length bs <=? n) eqn:E; intros [= <- _ _].
    + now apply Nat.leb_le.
    + rewrite length_firstn. lia.
  - intros [= <- _ _]; simpl; lia.
Qed.

Lemma read_some_weight (t : Stream) (n : nat) got ec t' :
  read_some t n = (got, ec, t') -> ec_not ec = true -> 0 < n ->
  weight t' < weight t.
Proof.
  destruct t as [|[bs|e] t]; simpl.
  - intros [= _ <- _]; discriminate.
  - destruct (length bs <=? n) eqn:E; intros [= _ _ <-] _ Hn; simpl.
    + lia.
    + apply Nat.leb_gt in E. rewrite length_skipn. lia.
  - intros [= _ _ <-] _ _. lia.
Qed.

Lemma read_some_failed (t : Stream) (n : nat) got ec t' :
  read_some t n = (got, ec, t') -> ec_not ec = false -> got = [].
Proof.
  destruct t as [|[bs|e] t]; simpl.
  - now intros [= <- _ _].
  - destruct (length bs <=? n); intros [= _ <- _]; discriminate.
  - now intros [= <- _ _].
Qed.

(** ** One pass of the blocking loop *)

Section BlockingPass.

Context {L : Type} `{HandshakeDetectLogic L}.

Lemma read_into_spec (d : HandshakeDetectStreamType L) (n : nat) d1 ec1 ev1 :
  read_into d n = (d1, ec1, ev1) ->
  exists got,
    read_some (m_next_layer d) n = (got, ec1, m_next_layer d1) /\
    ev1 = [EvRead n got ec1] /\
    length got <= n /\
    data (m_buffer d1) = data (m_buffer d) ++ got /\
    m_logic d1 = m_logic d /\
    m_callback d1 = m_callback d /\
    m_origHandler d1 = m_origHandler d /\
    m_origBufferedHandler d1 = m_origBufferedHandler d.
Proof.
  unfold read_into. rewrite prepare_buffer_size.
  destruct (read_some (m_next_layer d) n) as [[got ec] t'] eqn:Eread.
  pose proof (read_some_length _ _ _ _ _ Eread) as Hlen.
  destruct (buffer_copy got (prepare n (m_buffer d))) as [sb k] eqn:Ecopy.
  intros [= <- <- <-]. exists got. simpl.
  repeat split; try reflexivity; try assumption.
  apply (buffer_copy_commit _ _ _ _ Ecopy).
  now rewrite prepare_buffer_size.
Qed.

Lemma do_handshake_body_pass (d : HandshakeDetectStreamType L) (ec : error_code) :
  pass d ec (do_handshake_body d ec).
Proof.
  unfold do_handshake_body, check_postcondition.
  destruct (size (m_buffer d) <? max_needed (m_logic d)) eqn:Hlt.
  - apply Nat.ltb_lt in Hlt.
    destruct (read_into d (max_needed (m_logic d) - size (m_buffer d)))
      as [[d1 ec1] ev1] eqn:Hread.
    destruct (read_into_spec _ _ _ _ _ Hread) as (got & _ & -> & _).
    destruct (ec_not ec1) eqn:Hec.
    + destruct (finished (m_logic (with_logic d1 (analyze (data (m_buffer d1)) (m_logic d1))))) eqn:Hfin.
      * eapply pass_read_verdict; eassumption.
      * eapply pass_read_again; eassumption.
    + eapply pass_read_failed; eassumption.
  - apply Nat.ltb_ge in Hlt.
    destruct (ec_not ec) eqn:Hec.
    + destruct (finished (m_logic (with_logic d (analyze (data (m_buffer d)) (m_logic d))))) eqn:Hfin.
      * eapply pass_idle_verdict; eassumption.
      * eapply pass_idle_stuck; eassumption.
    + eapply pass_idle_failed; eassumption.
Qed.

End BlockingPass.

(** ** The blocking loop as a whole *)

Section BlockingRun.

Context {L : Type} `{HandshakeDetectLogic L}.

(** A pass that goes round again has read from the transport without
    error and left the logic undecided. *)
Lemma pass_again (d : HandshakeDetectStreamType L) (ec : error_code) d' ec' evs :
  do_handshake_body d ec = (Again d' ec', evs) ->
  weight (m_next_layer d') < weight (m_next_layer d) /\
  ec_not ec' = true /\
  finished (m_logic d') = false.
Proof.
  intros Hbody. pose proof (do_handshake_body_pass d ec) as P.
  rewrite Hbody in P. inversion P; subst.
  match goal with Hr : read_into _ _ = _ |- _ =>
    destruct (read_into_spec _ _ _ _ _ Hr) as (got' & Hsome & _ & _) end.
  repeat split; try assumption. simpl.
  eapply read_some_weight; [eassumption | assumption | lia].
Qed.

Lemma do_handshake_loop_fuel (fuel1 : nat) :
  forall fuel2 (d : HandshakeDetectStreamType L) ec,
    weight (m_next_layer d) < fuel1 ->
    weight (m_next_layer d) < fuel2 ->
    do_handshake_loop fuel1 d ec = do_handshake_loop fuel2 d ec.
Proof.
  induction fuel1 as [|fuel1 IH]; intros fuel2 d ec H1 H2; [lia|].
  destruct fuel2 as [|fuel2]; [lia|]. simpl.
  destruct (do_handshake_body d ec) as [[d' ec'|st d'] evs] eqn:Hbody;
    [|reflexivity].
  destruct (pass_again _ _ _ _ _ Hbody) as (Hw & _ & _).
  f_equal. apply IH; lia.
Qed.

Lemma do_handshake_run_unfold (d : HandshakeDetectStreamType L) (ec : error_code) :
  do_handshake_run d ec =
  match do_handshake_body d ec with
  | (Again d' ec', evs) => prepend evs (do_handshake_run d' ec')
  | (Halt st d', evs) => mk_Run st d' evs
  end.
Proof.
  unfold do_handshake_run at 1. simpl.
  destruct (do_handshake_body d ec) as [[d' ec'|st d'] evs] eqn:Hbody;
    [|reflexivity].
  destruct (pass_again _ _ _ _ _ Hbody) as (Hw & _ & _).
  unfold do_handshake_run.
  f_equal. apply do_handshake_loop_fuel; lia.
Qed.

(** Induction along a run: a property of runs holds when it holds of
    every last pass and is carried backwards over every earlier pass. *)
Lemma do_handshake_run_ind
    (P : HandshakeDetectStreamType L -> error_code -> Run L -> Prop) :
  (forall d ec st d' evs,
      do_handshake_body d ec = (Halt st d', evs) ->
      P d ec (mk_Run st d' evs)) ->
  (forall d ec d' ec' evs,
      do_handshake_body d ec = (Again d' ec', evs) ->
      P d' ec' (do_handshake_run d' ec') ->
      P d ec (prepend evs (do_handshake_run d' ec'))) ->
  forall d ec, P d ec (do_handshake_run d ec).
Proof.
  intros Hlast Hstep d.
  remember (weight (m_next_layer d)) as w eqn:Hw.
  revert d Hw. induction w as [w IH] using lt_wf_ind. intros d Hw ec.
  rewrite do_handshake_run_unfold.
  destruct (do_handshake_body d ec) as [[d' ec'|st d'] evs] eqn:Hbody.
  - apply Hstep; [assumption|].
    destruct (pass_again _ _ _ _ _ Hbody) as (Hlt & _ & _).
    apply (IH (weight (m_next_layer d'))); [lia | reflexivity].
  - now apply Hlast.
Qed.

(** The blocking loop always comes to an end: it returns an error code or
    stops on the failed contract check. *)
Lemma do_handshake_run_terminates (d : HandshakeDetectStreamType L) ec :
  status (do_handshake_run d ec) <> OutOfFuel.
Proof.
  apply (do_handshake_run_ind (fun _ _ r => status r <> OutOfFuel)).
  - intros d0 ec0 st d' evs Hbody. pose proof (do_handshake_body_pass d0 ec0) as P.
    rewrite Hbody in P. inversion P; subst; simpl; discriminate.
  - intros; assumption.
Qed.

End BlockingRun.

(** ** One resumption of the completion-driven loop *)

Section Resumptions.

Context {L : Type} `{HandshakeDetectLogic L}.

Lemma on_async_read_some_resumed (d : HandshakeDetectStreamType L) ec n :
  resumed d ec n (on_async_read_some d ec n).
Proof.
  unfold on_async_read_some, check_postcondition.
  destruct (ec_not ec) eqn:Hec; [|now apply resumed_failed].
  destruct n as [|n'];
    [change (0 <? 0) with false | change (0 <? S n') with true];
    cbv beta iota zeta;
    match goal with |- context [finished ?x] => destruct (finished x) eqn:Hfin end.
  - exact (@resumed_verdict _ _ d ec 0 Hec Hfin).
  - match goal with |- context [?a <? ?b] => destruct (a <? b) eqn:Hlt end.
    + apply Nat.ltb_lt in Hlt. exact (@resumed_pending _ _ d ec 0 Hec Hfin Hlt).
    + apply Nat.ltb_ge in Hlt. exact (@resumed_stuck _ _ d ec 0 Hec Hfin Hlt).
  - exact (@resumed_verdict _ _ d ec (S n') Hec Hfin).
  - match goal with |- context [?a <? ?b] => destruct (a <? b) eqn:Hlt end.
    + apply Nat.ltb_lt in Hlt. exact (@resumed_pending _ _ d ec (S n') Hec Hfin Hlt).
    + apply Nat.ltb_ge in Hlt. exact (@resumed_stuck _ _ d ec (S n') Hec Hfin Hlt).
Qed.

Lemma on_async_read_some_armed (d : HandshakeDetectStreamType L) ec n :
  armed (fst (on_async_read_some d ec n)).
Proof.
  destruct (on_async_read_some_resumed d ec n); try exact I.
  unfold rearmed. cbn [fst armed m_buffer with_buffer].
  rewrite prepare_buffer_size. lia.
Qed.

Lemma written_committed_data (d : HandshakeDetectStreamType L) got t' :
  length got <= buffer_size (m_buffer d) ->
  data (m_buffer (committed (written d got t') (length got)))
  = data (m_buffer d) ++ got.
Proof.
  intros Hfit. unfold committed, written.
  cbn [m_buffer with_buffer with_next_layer].
  pose proof (buffer_copy_count _ _ Hfit) as Hk.
  destruct (buffer_copy got (m_buffer d)) as [sb k] eqn:Ecopy.
  cbn [fst snd] in *. subst k.
  exact (buffer_copy_commit _ _ _ _ Ecopy Hfit).
Qed.

(** A completion is one transport read followed by one resumption. *)
Lemma complete_read_spec (d : HandshakeDetectStreamType L) :
  exists got ec t',
    read_some (m_next_layer d) (buffer_size (m_buffer d)) = (got, ec, t') /\
    length got <= buffer_size (m_buffer d) /\
    complete_read d
    = (fst (on_async_read_some (written d got t') ec (length got)),
       EvRead (buffer_size (m_buffer d)) got ec
         :: snd (on_async_read_some (written d got t') ec (length got))).
Proof.
  unfold complete_read.
  destruct (read_some (m_next_layer d) (buffer_size (m_buffer d)))
    as [[got ec] t'] eqn:Eread.
  pose proof (read_some_length _ _ _ _ _ Eread) as Hfit.
  exists got, ec, t'. repeat split; [assumption|].
  unfold written.
  pose proof (buffer_copy_count _ _ Hfit) as Hk.
  destruct (buffer_copy got (m_buffer d)) as [sb k] eqn:Ecopy.
  cbn [fst snd] in *. subst k.
  now destruct (on_async_read_some (with_next_layer (with_buffer d sb) t') ec (length got)).
Qed.

Lemma complete_read_armed (d : HandshakeDetectStreamType L) r evs :
  complete_read d = (r, evs) -> armed r.
Proof.
  destruct (complete_read_spec d) as (got & ec & t' & _ & _ & ->).
  intros [= <- _]. apply on_async_read_some_armed.
Qed.

(** A completion that leaves another read pending has taken bytes from
    the transport without error and left the logic undecided. *)
Lemma complete_read_pending (d : HandshakeDetectStreamType L) d' evs :
  0 < buffer_size (m_buffer d) ->
  complete_read d = (Pending d', evs) ->
  weight (m_next_layer d') < weight (m_next_layer d) /\
  finished (m_logic d') = false.
Proof.
  intros Harmed.
  destruct (complete_read_spec d) as (got & ec & t' & Eread & _ & ->).
  destruct (on_async_read_some_resumed (written d got t') ec (length got));
    simpl; intros [= <- _].
  split.
  - simpl. unfold digested. destruct (0 <? length got); simpl;
      eapply read_some_weight; eassumption.
  - unfold rearmed; simpl. assumption.
Qed.

Lemma io_run_fuel (fuel1 : nat) :
  forall fuel2 (r : Resumption L),
    armed r ->
    resumption_weight r < fuel1 -> resumption_weight r < fuel2 ->
    io_run fuel1 r = io_run fuel2 r.
Proof.
  induction fuel1 as [|fuel1 IH]; intros fuel2 r Harmed H1 H2; [lia|].
  destruct fuel2 as [|fuel2]; [lia|].
  destruct r as [d|d|d]; simpl; try reflexivity.
  destruct (complete_read d) as [r' evs] eqn:Hc.
  pose proof (complete_read_armed _ _ _ Hc) as Harmed'.
  f_equal. destruct r' as [d'|d'|d']; [|destruct fuel1, fuel2; reflexivity ..].
  destruct (complete_read_pending _ _ _ Harmed Hc) as (Hw & _).
  unfold resumption_weight in *. cbn [resumption_detector] in *.
  apply IH; cbn [resumption_detector]; [assumption | lia | lia].
Qed.

Lemma io_service_run_unfold (d : HandshakeDetectStreamType L) :
  0 < buffer_size (m_buffer d) ->
  io_service_run (Pending d)
  = prepend (snd (complete_read d)) (io_service_run (fst (complete_read d))).
Proof.
  intros Harmed. unfold io_service_run at 1. simpl.
  destruct (complete_read d) as [r' evs] eqn:Hc. simpl.
  pose proof (complete_read_armed _ _ _ Hc) as Harmed'.
  f_equal. unfold io_service_run.
  destruct r' as [d'|d'|d'];
    [|destruct (weight (m_next_layer d)); reflexivity ..].
  destruct (complete_read_pending _ _ _ Harmed Hc) as (Hw & _).
  apply io_run_fuel; unfold resumption_weight; cbn [resumption_detector];
    [assumption | lia | lia].
Qed.

(** Induction along the completions of a run. *)
Lemma io_service_run_ind (P : Resumption L -> Run L -> Prop) :
  (forall d, P (Done d) (mk_Run Delivered d [])) ->
  (forall d, P (Fatal d) (mk_Run Aborted d [])) ->
  (forall d r' evs,
      0 < buffer_size (m_buffer d) ->
      complete_read d = (r', evs) ->
      P r' (io_service_run r') ->
      P (Pending d) (prepend evs (io_service_run r'))) ->
  forall r, armed r -> P r (io_service_run r).
Proof.
  intros Hdone Hfatal Hstep r.
  remember (resumption_weight r) as w eqn:Hw.
  revert r Hw. induction w as [w IH] using lt_wf_ind. intros r Hw Harmed.
  destruct r as [d|d|d]; [|apply Hdone|apply Hfatal].
  simpl in Harmed. rewrite (io_service_run_unfold _ Harmed).
  destruct (complete_read d) as [r' evs] eqn:Hc. simpl.
  apply Hstep; [assumption | assumption |].
  pose proof (complete_read_armed _ _ _ Hc) as Harmed'.
  destruct r' as [d'|d'|d']; [|apply Hdone|apply Hfatal].
  destruct (complete_read_pending _ _ _ Harmed Hc) as (Hlt & _).
  apply (IH (resumption_weight (Pending d')));
    unfold resumption_weight in *; cbn [resumption_detector] in *;
    [lia | reflexivity | assumption].
Qed.

(** The completion-driven loop always comes to an end. *)
Lemma io_service_run_terminates (r : Resumption L) :
  armed r -> status (io_service_run r) <> OutOfFuel.
Proof.
  apply (io_service_run_ind (fun _ run => status run <> OutOfFuel));
    simpl; intros; try discriminate; assumption.
Qed.

Lemma async_run_terminates (d : HandshakeDetectStreamType L) buffers :
  status (async_run (async_do_handshake d buffers)) <> OutOfFuel.
Proof.
  unfold async_run, async_do_handshake.
  destruct (buffer_copy buffers (prepare (length buffers) (m_buffer d))) as [sb k].
  pose proof (on_async_read_some_armed (with_buffer d sb) error_code_default k) as Ha.
  destruct (on_async_read_some (with_buffer d sb) error_code_default k) as [r evs].
  simpl. now apply io_service_run_terminates.
Qed.

End Resumptions.

(** ** Runs of the completion-driven loop, resumption by resumption *)

Section AsyncRuns.

Context {L : Type} `{HandshakeDetectLogic L}.

Lemma prepend_prepend (a b : list (Event L)) (r : Run L) :
  prepend a (prepend b r) = prepend (a ++ b) r.
Proof. unfold prepend; simpl. now rewrite app_assoc. Qed.

Lemma digested_next_layer (d : HandshakeDetectStreamType L) n :
  m_next_layer (digested d n) = m_next_layer d.
Proof. unfold digested. now destruct (0 <? n). Qed.

Lemma digested_buffer (d : HandshakeDetectStreamType L) n :
  m_buffer (digested d n) = commit n (m_buffer d).
Proof. unfold digested. now destruct (0 <? n). Qed.

Lemma digested_callback (d : HandshakeDetectStreamType L) n :
  m_callback (digested d n) = m_callback d.
Proof. unfold digested. now destruct (0 <? n). Qed.

Lemma digested_origHandler (d : HandshakeDetectStreamType L) n :
  m_origHandler (digested d n) = m_origHandler d.
Proof. unfold digested. now destruct (0 <? n). Qed.

Lemma digested_origBufferedHandler (d : HandshakeDetectStreamType L) n :
  m_origBufferedHandler (digested d n) = m_origBufferedHandler d.
Proof. unfold digested. now destruct (0 <? n). Qed.

Lemma async_resume_pending (d : HandshakeDetectStreamType L) ec n :
  ec_not ec = true ->
  finished (m_logic (digested d n)) = false ->
  size (m_buffer (committed d n)) < max_needed (m_logic d) ->
  exists got ec' t',
    read_some (m_next_layer d)
              (max_needed (m_logic d) - size (m_buffer (committed d n)))
    = (got, ec', t') /\
    length got <= max_needed (m_logic d) - size (m_buffer (committed d n)) /\
    async_resume d ec n
    = prepend (digest_events d n
                 ++ [EvRead (max_needed (m_logic d) - size (m_buffer (committed d n)))
                            got ec'])
              (async_resume (written (rearmed d n) got t') ec' (length got)).
Proof.
  intros Hec Hfin Hlt. unfold async_resume at 1.
  pose proof (on_async_read_some_resumed d ec n) as R.
  inversion R as [Hbad | Hok Hfin' Heq | Hok Hfin' Hlt' Heq | Hok Hfin' Hge Heq];
    try congruence; try lia.
  unfold async_run.
  assert (Hsz : buffer_size (m_buffer (rearmed d n))
                = max_needed (m_logic d) - size (m_buffer (committed d n))).
  { unfold rearmed. cbn [m_buffer with_buffer]. apply prepare_buffer_size. }
  rewrite io_service_run_unfold by (rewrite Hsz; lia).
  destruct (complete_read_spec (rearmed d n)) as (got & ec' & t' & Eread & Hfit & ->).
  rewrite Hsz in Eread, Hfit |- *.
  replace (m_next_layer (rearmed d n)) with (m_next_layer d) in Eread
    by (unfold rearmed; cbn [m_next_layer with_buffer];
        now rewrite digested_next_layer).
  exists got, ec', t'. repeat split; try assumption.
  cbn [fst snd]. rewrite prepend_prepend.
  unfold async_resume, async_run.
  destruct (on_async_read_some (written (rearmed d n) got t') ec' (length got))
    as [r' evs'].
  cbn [fst snd]. rewrite prepend_prepend. f_equal.
  now rewrite <- app_assoc.
Qed.

(** Induction along a completion-driven run, by the four ways through
    [on_async_read_some]. *)
Lemma async_resume_ind
    (P : HandshakeDetectStreamType L -> error_code -> nat -> Run L -> Prop) :
  (forall d ec n,
      ec_not ec = false ->
      P d ec n (mk_Run Delivered d (deliver d ec))) ->
  (forall d ec n,
      ec_not ec = true ->
      finished (m_logic (digested d n)) = true ->
      P d ec n
        (mk_Run Delivered (concluded (digested d n))
           (digest_events d n ++ conclusion_events (digested d n)
              ++ deliver (concluded (digested d n)) ec))) ->
  (forall d ec n,
      ec_not ec = true ->
      finished (m_logic (digested d n)) = false ->
      max_needed (m_logic d) <= size (m_buffer (committed d n)) ->
      P d ec n (mk_Run Aborted (digested d n) (digest_events d n ++ [EvFatal]))) ->
  (forall d ec n got ec' t',
      ec_not ec = true ->
      finished (m_logic (digested d n)) = false ->
      size (m_buffer (committed d n)) < max_needed (m_logic d) ->
      read_some (m_next_layer d)
                (max_needed (m_logic d) - size (m_buffer (committed d n)))
      = (got, ec', t') ->
      length got <= max_needed (m_logic d) - size (m_buffer (committed d n)) ->
      P (written (rearmed d n) got t') ec' (length got)
        (async_resume (written (rearmed d n) got t') ec' (length got)) ->
      P d ec n
        (prepend (digest_events d n
                    ++ [EvRead (max_needed (m_logic d) - size (m_buffer (committed d n)))
                               got ec'])
                 (async_resume (written (rearmed d n) got t') ec' (length got)))) ->
  forall d ec n, P d ec n (async_resume d ec n).
Proof.
  intros Hfailed Hverdict Hstuck Hpending d.
  remember (weight (m_next_layer d)) as w eqn:Hw.
  revert d Hw. induction w as [w IH] using lt_wf_ind. intros d Hw ec n.
  pose proof (on_async_read_some_resumed d ec n) as R.
  inversion R as [Hbad Heq | Hok Hfin Heq | Hok Hfin Hlt Heq | Hok Hfin Hge Heq].
  - unfold async_resume, async_run. rewrite <- Heq.
    unfold io_service_run, prepend; simpl. rewrite app_nil_r. now apply Hfailed.
  - unfold async_resume, async_run. rewrite <- Heq.
    unfold io_service_run, prepend; simpl. rewrite app_nil_r. now apply Hverdict.
  - destruct (async_resume_pending d ec n Hok Hfin Hlt)
      as (got & ec' & t' & Eread & Hfit & ->).
    apply Hpending; try assumption.
    destruct (ec_not ec') eqn:Hec'.
    + apply (IH (weight t')); [|reflexivity].
      subst w. eapply read_some_weight; [eassumption | assumption | lia].
    + pose proof (on_async_read_some_resumed (written (rearmed d n) got t') ec' (length got)) as R'.
      inversion R' as [Hbad' Heq' | Hok' | Hok' | Hok']; try congruence.
      unfold async_resume, async_run. rewrite <- Heq'.
      unfold io_service_run, prepend; simpl. rewrite app_nil_r. now apply Hfailed.
  - unfold async_resume, async_run. rewrite <- Heq.
    unfold io_service_run, prepend; simpl. rewrite app_nil_r. now apply Hstuck.
Qed.

Lemma async_do_handshake_resume (d : HandshakeDetectStreamType L) buffers :
  exists sb,
    buffer_copy buffers (prepare (length buffers) (m_buffer d))
    = (sb, length buffers) /\
    data (commit (length buffers) sb) = data (m_buffer d) ++ buffers /\
    async_run (async_do_handshake d buffers)
    = async_resume (with_buffer d sb) error_code_default (length buffers).
Proof.
  unfold async_do_handshake, async_resume.
  assert (Hfit : length buffers <= buffer_size (prepare (length buffers) (m_buffer d)))
    by now rewrite prepare_buffer_size.
  pose proof (buffer_copy_count _ _ Hfit) as Hk.
  destruct (buffer_copy buffers (prepare (length buffers) (m_buffer d))) as [sb k] eqn:E.
  cbn [snd] in Hk. subst k. exists sb. repeat split.
  apply (buffer_copy_commit _ _ _ _ E Hfit).
Qed.

End AsyncRuns.

(** ** Reading traces *)

Section Traces.

Context {L : Type}.

Lemma deliveries_app (a b : list (Event L)) :
  deliveries (a ++ b) = deliveries a ++ deliveries b.
Proof.
  induction a as [|e a IH]; simpl; [reflexivity|].
  destruct (delivery_of e); simpl; now rewrite IH.
Qed.

Lemma bytes_read_app (a b : list (Event L)) :
  bytes_read (a ++ b) = bytes_read a ++ bytes_read b.
Proof.
  induction a as [|e a IH]; simpl; [reflexivity|].
  destruct e; simpl; rewrite IH; try reflexivity. now rewrite app_assoc.
Qed.

Lemma reads_app (a b : list (Event L)) : reads (a ++ b) = reads a ++ reads b.
Proof. unfold reads. apply filter_app. Qed.

Lemma trace_prepend (evs : list (Event L)) (r : Run L) :
  trace (prepend evs r) = evs ++ trace r.
Proof. reflexivity. Qed.

Lemma status_prepend (evs : list (Event L)) (r : Run L) :
  status (prepend evs r) = status r.
Proof. reflexivity. Qed.

Lemma final_prepend (evs : list (Event L)) (r : Run L) :
  final (prepend evs r) = final r.
Proof. reflexivity. Qed.

End Traces.

(** Case analysis on a pass of the blocking loop, with what the read did. *)
Ltac invert_pass Hbody :=
  let P := fresh "P" in
  match type of Hbody with
  | do_handshake_body ?d ?ec = _ =>
      pose proof (do_handshake_body_pass d ec) as P;
      rewrite Hbody in P; inversion P; subst; clear P
  end.

Ltac read_facts :=
  match goal with
  | Hr : read_into _ _ = (_, _, _) |- _ =>
      let got' := fresh "got" in
      let Hsome := fresh "Hsome" in
      let Hev := fresh "Hev" in
      let Hlen := fresh "Hlen" in
      let Hdata := fresh "Hdata" in
      let Hlogic := fresh "Hlogic" in
      let Hcb := fresh "Hcb" in
      let Hoh := fresh "Hoh" in
      let Hobh := fresh "Hobh" in
      destruct (read_into_spec _ _ _ _ _ Hr)
        as (got' & Hsome & Hev & Hlen & Hdata & Hlogic & Hcb & Hoh & Hobh);
      injection Hev as Hev; subst got'; clear Hr
  end.

Ltac split_in H :=
  simpl in H;
  repeat (destruct H as [H|H]; [try discriminate H|]);
  try contradiction.

(** ** The blocking variant and its callback *)

Section BlockingCallback.

Context {L : Type} `{HandshakeDetectLogic L}.

Lemma do_handshake_run_on_detect (d : HandshakeDetectStreamType L) ec :
  ec_not ec = true ->
  forall l e leftover,
    In (EvOnDetect l e leftover) (trace (do_handshake_run d ec)) ->
    ec_not e = true /\
    status (do_handshake_run d ec)
    = Returned (on_detect (m_callback d) l e leftover).
Proof.
  apply (do_handshake_run_ind
    (fun d ec r =>
       ec_not ec = true ->
       forall l e leftover,
         In (EvOnDetect l e leftover) (trace r) ->
         ec_not e = true /\
         status r = Returned (on_detect (m_callback d) l e leftover))).
  - intros d0 ec0 st d' evs Hbody Hec l e leftover Hin.
    invert_pass Hbody; try read_facts; cbn [trace status] in *;
      unfold conclusion_events, on_detect_event in Hin; split_in Hin.
    + injection Hin as <- <- <-. now split.
    + injection Hin as <- <- <-. unfold on_detect_result.
      cbn [m_callback concluded analysed with_buffer with_logic].
      rewrite Hcb. now split.
  - intros d0 ec0 d' ec' evs Hbody IH Hec l e leftover Hin.
    invert_pass Hbody. read_facts.
    rewrite trace_prepend in Hin. apply in_app_or in Hin.
    destruct Hin as [Hin|Hin]; [split_in Hin|].
    rewrite status_prepend.
    destruct (IH ltac:(assumption) l e leftover Hin) as [He Hst].
    split; [assumption|]. rewrite Hst.
    cbn [m_callback analysed with_logic]. now rewrite Hcb.
Qed.

End BlockingCallback.

(** ** What becomes of the bytes *)

Section Leftover.

Context {L : Type} `{HandshakeDetectLogic L}.

Lemma do_handshake_run_leftover (d : HandshakeDetectStreamType L) ec :
  forall l e leftover,
    In (l, e, leftover) (deliveries (trace (do_handshake_run d ec))) ->
    leftover
    = skipn (bytes_consumed l)
            (data (m_buffer d) ++ bytes_read (trace (do_handshake_run d ec))).
Proof.
  apply (do_handshake_run_ind
    (fun d ec r =>
       forall l e leftover,
         In (l, e, leftover) (deliveries (trace r)) ->
         leftover
         = skipn (bytes_consumed l) (data (m_buffer d) ++ bytes_read (trace r)))).
  - intros d0 ec0 st d' evs Hbody l e leftover Hin.
    invert_pass Hbody; try read_facts; cbn [trace] in *;
      unfold conclusion_events, on_detect_event in *; split_in Hin.
    + injection Hin as <- <- <-. cbn. now rewrite app_nil_r.
    + injection Hin as <- <- <-. cbn. rewrite app_nil_r.
      unfold data in Hdata. now rewrite Hdata.
  - intros d0 ec0 d' ec' evs Hbody IH l e leftover Hin.
    invert_pass Hbody. read_facts.
    rewrite trace_prepend in *. rewrite deliveries_app in Hin.
    cbn [deliveries delivery_of app] in Hin.
    rewrite bytes_read_app. cbn [bytes_read app].
    rewrite (IH l e leftover Hin).
    cbn [m_buffer analysed with_logic]. rewrite Hdata.
    now rewrite app_nil_r, app_assoc.
Qed.

Lemma deliver_deliveries (d : HandshakeDetectStreamType L) ec :
  deliveries (deliver d ec) = [(m_logic d, ec, data (m_buffer d))].
Proof.
  unfold deliver. now destruct (negb (TransferCall_isNull (m_origBufferedHandler d))).
Qed.

Lemma digest_events_deliveries (d : HandshakeDetectStreamType L) n :
  deliveries (digest_events d n) = [].
Proof. unfold digest_events. now destruct (0 <? n). Qed.

Lemma digest_events_bytes_read (d : HandshakeDetectStreamType L) n :
  bytes_read (digest_events d n) = [].
Proof. unfold digest_events. now destruct (0 <? n). Qed.

Lemma deliver_bytes_read (d : HandshakeDetectStreamType L) ec :
  bytes_read (deliver d ec) = [].
Proof.
  unfold deliver. now destruct (negb (TransferCall_isNull (m_origBufferedHandler d))).
Qed.

Lemma async_resume_leftover (d : HandshakeDetectStreamType L) ec n :
  forall l e leftover,
    In (l, e, leftover) (deliveries (trace (async_resume d ec n))) ->
    ec_not e = true ->
    leftover
    = skipn (bytes_consumed l)
            (data (m_buffer (committed d n))
               ++ bytes_read (trace (async_resume d ec n))).
Proof.
  apply (async_resume_ind
    (fun d ec n r =>
       forall l e leftover,
         In (l, e, leftover) (deliveries (trace r)) ->
         ec_not e = true ->
         leftover
         = skipn (bytes_consumed l)
                 (data (m_buffer (committed d n)) ++ bytes_read (trace r)))).
  - intros d0 ec0 n0 Hbad l e leftover Hin He. cbn [trace] in Hin.
    rewrite deliver_deliveries in Hin. split_in Hin.
    injection Hin as <- <- <-. congruence.
  - intros d0 ec0 n0 Hok Hfin l e leftover Hin He. cbn [trace] in *.
    rewrite !deliveries_app, digest_events_deliveries, deliver_deliveries in Hin.
    cbn in Hin. split_in Hin. injection Hin as <- <- <-.
    rewrite !bytes_read_app, digest_events_bytes_read, deliver_bytes_read.
    cbn. rewrite app_nil_r. now rewrite digested_buffer.
  - intros d0 ec0 n0 Hok Hfin Hge l e leftover Hin He. cbn [trace] in Hin.
    rewrite deliveries_app, digest_events_deliveries in Hin. split_in Hin.
  - intros d0 ec0 n0 got ec' t' Hok Hfin Hlt Eread Hfit IH l e leftover Hin He.
    rewrite trace_prepend in *.
    rewrite !deliveries_app, digest_events_deliveries in Hin. cbn in Hin.
    rewrite !bytes_read_app, digest_events_bytes_read. cbn [bytes_read app].
    rewrite (IH l e leftover Hin He).
    rewrite written_committed_data.
    + unfold rearmed. cbn [m_buffer with_buffer]. rewrite prepare_data.
      rewrite digested_buffer. unfold committed. cbn [m_buffer with_buffer].
      now rewrite app_nil_r, app_assoc.
    + unfold rearmed. cbn [m_buffer with_buffer]. now rewrite prepare_buffer_size.
Qed.

End Leftover.

(** ** Where reads come from *)

Section ReadEvents.

Context {L : Type} `{HandshakeDetectLogic L}.

Lemma deliver_reads (d : HandshakeDetectStreamType L) ec :
  reads (deliver d ec) = [].
Proof.
  unfold deliver. now destruct (negb (TransferCall_isNull (m_origBufferedHandler d))).
Qed.

Lemma digest_events_reads (d : HandshakeDetectStreamType L) n :
  reads (digest_events d n) = [].
Proof. unfold digest_events. now destruct (0 <? n). Qed.



End ReadEvents.

(** ** The consumed-bounds assertion *)

Section ConsumedBounds.

Context {L : Type} `{HandshakeDetectLogic L}.

Hypothesis Hbounded : consumed_within_analysed L.

Lemma conclusion_events_in_bounds (d : HandshakeDetectStreamType L) :
  bytes_consumed (m_logic d) <= size (m_buffer d) ->
  Forall consume_in_bounds (conclusion_events d).
Proof.
  intros Hle. unfold conclusion_events.
  repeat constructor; simpl; [now apply Nat.leb_le | assumption].
Qed.

Lemma analysed_in_bounds (d : HandshakeDetectStreamType L) :
  bytes_consumed (m_logic (analysed d)) <= size (m_buffer (analysed d)).
Proof. unfold analysed. cbn [m_logic m_buffer with_logic]. apply Hbounded. Qed.

Lemma do_handshake_run_in_bounds (d : HandshakeDetectStreamType L) ec :
  Forall consume_in_bounds (trace (do_handshake_run d ec)).
Proof.
  apply (do_handshake_run_ind
           (fun _ _ r => Forall consume_in_bounds (trace r))).
  - intros d0 ec0 st d' evs Hbody.
    invert_pass Hbody; cbn [trace];
      repeat (apply Forall_cons || apply Forall_nil); simpl;
      lazymatch goal with
      | |- True => exact I
      | |- (_ <=? _) = true => apply Nat.leb_le; apply Hbounded
      | |- _ <= _ => apply Hbounded
      end.
  - intros d0 ec0 d' ec' evs Hbody IH. invert_pass Hbody.
    rewrite trace_prepend. apply Forall_app. split; [|exact IH].
    repeat constructor.
Qed.

Lemma deliver_in_bounds (d : HandshakeDetectStreamType L) ec :
  Forall consume_in_bounds (deliver d ec).
Proof.
  unfold deliver.
  destruct (negb (TransferCall_isNull (m_origBufferedHandler d)));
    repeat constructor.
Qed.

Lemma digest_events_in_bounds (d : HandshakeDetectStreamType L) n :
  Forall consume_in_bounds (digest_events d n).
Proof. unfold digest_events. destruct (0 <? n); repeat constructor. Qed.

Lemma digested_in_bounds (d : HandshakeDetectStreamType L) n :
  bytes_consumed (m_logic d) <= size (commit n (m_buffer d)) ->
  bytes_consumed (m_logic (digested d n)) <= size (m_buffer (digested d n)).
Proof.
  intros Hle. unfold digested. destruct (0 <? n).
  - apply analysed_in_bounds.
  - exact Hle.
Qed.

Lemma async_resume_in_bounds (d : HandshakeDetectStreamType L) ec n :
  bytes_consumed (m_logic d) <= size (commit n (m_buffer d)) ->
  Forall consume_in_bounds (trace (async_resume d ec n)).
Proof.
  apply (async_resume_ind
           (fun d ec n r =>
              bytes_consumed (m_logic d) <= size (commit n (m_buffer d)) ->
              Forall consume_in_bounds (trace r))).
  - intros d0 ec0 n0 _ _. apply deliver_in_bounds.
  - intros d0 ec0 n0 _ _ Hle. cbn [trace].
    repeat (apply Forall_app; split).
    + apply digest_events_in_bounds.
    + apply conclusion_events_in_bounds. now apply digested_in_bounds.
    + apply deliver_in_bounds.
  - intros d0 ec0 n0 _ _ _ _. cbn [trace].
    apply Forall_app; split; [apply digest_events_in_bounds | repeat constructor].
  - intros d0 ec0 n0 got ec' t' Hok Hfin Hlt Eread Hfit IH Hle.
    rewrite trace_prepend.
    repeat (apply Forall_app; split);
      [apply digest_events_in_bounds | repeat constructor |].
    apply IH.
    pose proof (digested_in_bounds d0 n0 Hle) as Hd.
    assert (Hsz : size (commit (length got) (m_buffer (written (rearmed d0 n0) got t')))
                  = size (m_buffer (digested d0 n0)) + length got).
    { assert (Hfit' : length got <= buffer_size (m_buffer (rearmed d0 n0))).
      { unfold rearmed. cbn [m_buffer with_buffer].
        now rewrite prepare_buffer_size. }
      pose proof (written_committed_data (rearmed d0 n0) got t' Hfit') as Hw.
      unfold committed in Hw. cbn [m_buffer with_buffer] in Hw.
      unfold size. unfold data in Hw. rewrite Hw, length_app.
      unfold rearmed. cbn [m_buffer with_buffer]. reflexivity. }
    rewrite Hsz. unfold written, rearmed.
    cbn [m_logic with_next_layer with_buffer]. lia.
Qed.

End ConsumedBounds.

(** ** The pending continuation *)

Section Continuations.

Context {L : Type} `{HandshakeDetectLogic L}.

Lemma deliver_handlers (d : HandshakeDetectStreamType L) ec :
  Forall (handlers_respected (m_origHandler d) (m_origBufferedHandler d))
         (deliver d ec).
Proof.
  unfold deliver.
  destruct (TransferCall_isNull (m_origBufferedHandler d)) eqn:Hnull;
    cbn [negb]; repeat constructor; simpl; auto.
Qed.

Lemma digest_events_handlers (d : HandshakeDetectStreamType L) n oh obh :
  Forall (handlers_respected oh obh) (digest_events d n).
Proof. unfold digest_events. destruct (0 <? n); repeat constructor. Qed.

Lemma conclusion_events_handlers (d : HandshakeDetectStreamType L) oh obh :
  Forall (handlers_respected oh obh) (conclusion_events d).
Proof. unfold conclusion_events. repeat constructor. Qed.

(** No resumption touches the two original handlers, and every delivery
    goes by them. *)
Lemma async_resume_handlers (d : HandshakeDetectStreamType L) ec n :
  m_origHandler (final (async_resume d ec n)) = m_origHandler d /\
  m_origBufferedHandler (final (async_resume d ec n)) = m_origBufferedHandler d /\
  Forall (handlers_respected (m_origHandler d) (m_origBufferedHandler d))
         (trace (async_resume d ec n)).
Proof.
  apply (async_resume_ind
    (fun d ec n r =>
       m_origHandler (final r) = m_origHandler d /\
       m_origBufferedHandler (final r) = m_origBufferedHandler d /\
       Forall (handlers_respected (m_origHandler d) (m_origBufferedHandler d))
              (trace r))).
  - intros d0 ec0 n0 _. cbn [final trace]. repeat split. apply deliver_handlers.
  - intros d0 ec0 n0 _ _. cbn [final trace].
    cbn [concluded m_origHandler m_origBufferedHandler with_buffer].
    rewrite digested_origHandler, digested_origBufferedHandler.
    repeat split. repeat (apply Forall_app; split).
    + apply digest_events_handlers.
    + apply conclusion_events_handlers.
    + pose proof (deliver_handlers (concluded (digested d0 n0)) ec0) as Hd.
      cbn [concluded m_origHandler m_origBufferedHandler with_buffer] in Hd.
      now rewrite digested_origHandler, digested_origBufferedHandler in Hd.
  - intros d0 ec0 n0 _ _ _. cbn [final trace].
    rewrite digested_origHandler, digested_origBufferedHandler.
    repeat split. apply Forall_app; split;
      [apply digest_events_handlers | repeat constructor].
  - intros d0 ec0 n0 got ec' t' _ _ _ _ _ (IHoh & IHobh & IHtr).
    rewrite final_prepend, trace_prepend.
    unfold written, rearmed in IHoh, IHobh, IHtr.
    cbn [m_origHandler m_origBufferedHandler with_buffer with_next_layer]
      in IHoh, IHobh, IHtr.
    rewrite digested_origHandler in IHoh, IHtr.
    rewrite digested_origBufferedHandler in IHobh, IHtr.
    repeat split; try assumption.
    repeat (apply Forall_app; split);
      [apply digest_events_handlers | repeat constructor | assumption].
Qed.

(** The callback is called at most once in a run. *)
Lemma async_resume_delivers_once (d : HandshakeDetectStreamType L) ec n :
  length (deliveries (trace (async_resume d ec n))) <= 1.
Proof.
  apply (async_resume_ind
           (fun _ _ _ r => length (deliveries (trace r)) <= 1)).
  - intros d0 ec0 n0 _. cbn [trace]. now rewrite deliver_deliveries.
  - intros d0 ec0 n0 _ _. cbn [trace].
    now rewrite !deliveries_app, digest_events_deliveries, deliver_deliveries.
  - intros d0 ec0 n0 _ _ _. cbn [trace].
    rewrite deliveries_app, digest_events_deliveries. simpl. lia.
  - intros d0 ec0 n0 got ec' t' _ _ _ _ _ IH.
    rewrite trace_prepend, !deliveries_app, digest_events_deliveries.
    exact IH.
Qed.

Lemma error_only_respected (handler : nat) (e : Event L) :
  handlers_respected (ErrorCall_of handler) TransferCall_null e ->
  goes_to_error_only handler e.
Proof.
  destruct e as [| |site b| | | | |]; simpl; try tauto.
  - destruct site; simpl; auto; intros [Hnull Hb]; congruence.
  - intros [Hnull _]. discriminate.
Qed.

Lemma error_plus_count_respected (handler : nat) (e : Event L) :
  handlers_respected ErrorCall_null (TransferCall_of handler) e ->
  goes_to_error_plus_count handler e.
Proof.
  destruct e as [| |site b| | | | |]; simpl; try tauto.
  - destruct site; simpl; auto; intros [Hnull Hb]; congruence.
  - intros [Hnull _]. discriminate.
Qed.

End Continuations.

(** ** After a failed read *)

Section FailedRead.

Context {L : Type} `{HandshakeDetectLogic L}.

Lemma reads_cons_nil (e : Event L) (evs : list (Event L)) :
  reads (e :: evs) = [] -> is_read e = false /\ reads evs = [].
Proof.
  unfold reads; simpl. destruct (is_read e); [discriminate | now split].
Qed.

(** Where an event sits in a trace that starts with a read-free prefix
    followed by a read. *)
Lemma split_at_read (a : list (Event L)) :
  forall (b pre post : list (Event L)) (x y : Event L),
    reads a = [] -> is_read y = true ->
    a ++ x :: b = pre ++ y :: post ->
    (pre = a /\ x = y /\ b = post) \/
    (exists pre', pre = a ++ x :: pre' /\ b = pre' ++ y :: post).
Proof.
  induction a as [|a0 a IH]; intros b pre post x y Ha Hy Heq.
  - destruct pre as [|p pre]; simpl in Heq; injection Heq as -> ->.
    + left. repeat split.
    + right. exists pre. split; reflexivity.
  - apply reads_cons_nil in Ha. destruct Ha as [Ha0 Ha].
    destruct pre as [|p pre]; simpl in Heq; injection Heq as <- Heq.
    + congruence.
    + destruct (IH b pre post x y Ha Hy Heq) as [(-> & -> & ->) | (pre' & -> & ->)].
      * left. repeat split.
      * right. exists pre'. split; reflexivity.
Qed.

Lemma no_read_no_split (evs pre post : list (Event L)) (y : Event L) :
  reads evs = [] -> is_read y = true -> evs <> pre ++ y :: post.
Proof.
  intros Hnil Hy ->. rewrite reads_app in Hnil.
  apply app_eq_nil in Hnil. destruct Hnil as [_ Hnil].
  apply reads_cons_nil in Hnil. destruct Hnil as [Hn _]. congruence.
Qed.

Lemma do_handshake_run_failed_read (d : HandshakeDetectStreamType L) ec :
  forall pre requested got e post,
    trace (do_handshake_run d ec) = pre ++ EvRead requested got e :: post ->
    ec_not e = false ->
    post = [] /\
    status (do_handshake_run d ec) = Returned e /\
    deliveries (trace (do_handshake_run d ec)) = [] /\
    data (m_buffer (final (do_handshake_run d ec)))
    = data (m_buffer d) ++ bytes_read pre.
Proof.
  apply (do_handshake_run_ind
    (fun d ec r =>
       forall pre requested got e post,
         trace r = pre ++ EvRead requested got e :: post ->
         ec_not e = false ->
         post = [] /\
         status r = Returned e /\
         deliveries (trace r) = [] /\
         data (m_buffer (final r)) = data (m_buffer d) ++ bytes_read pre)).
  - intros d0 ec0 st d' evs Hbody pre requested got e post Htr He.
    cbn [trace status final] in *. revert Htr.
    invert_pass Hbody; try read_facts; intros Htr;
      unfold conclusion_events, on_detect_event in Htr; cbn [app] in Htr;
      try (exfalso; revert Htr; apply no_read_no_split; reflexivity).
    + (* the read failed *)
      apply (split_at_read [] [] pre post) in Htr; try reflexivity.
      destruct Htr as [(-> & Hxy & <-) | (pre' & _ & Hnil)];
        [|now destruct pre'].
      injection Hxy as <- <- <-.
      pose proof (read_some_failed _ _ _ _ _ Hsome He) as ->.
      repeat split. rewrite Hdata. reflexivity.
    + (* the read succeeded and the verdict followed *)
      apply (split_at_read [] _ pre post) in Htr; try reflexivity.
      destruct Htr as [(_ & Hxy & _) | (pre' & _ & Hrest)].
      * injection Hxy as _ _ <-. congruence.
      * exfalso. revert Hrest. apply no_read_no_split; reflexivity.
  - intros d0 ec0 d' ec' evs Hbody IH pre requested got e post Htr He.
    revert Htr. invert_pass Hbody. read_facts. intros Htr.
    rewrite trace_prepend, status_prepend, final_prepend in *.
    cbn [app] in Htr.
    apply (split_at_read [] _ pre post) in Htr; try reflexivity.
    destruct Htr as [(_ & Hxy & _) | (pre' & -> & Hrest)].
    + injection Hxy as _ _ <-. congruence.
    + destruct pre' as [|p pre']; simpl in Hrest; [discriminate|].
      injection Hrest as <- Hrest.
      destruct (IH pre' requested got e post Hrest He) as (Hp & Hst & Hdel & Hfin).
      repeat split; try assumption.
      rewrite Hfin. cbn [m_buffer analysed with_logic app bytes_read].
      rewrite Hdata. now rewrite app_assoc.
Qed.

Lemma async_resume_failed (d : HandshakeDetectStreamType L) ec n :
  ec_not ec = false ->
  async_resume d ec n = mk_Run Delivered d (deliver d ec).
Proof.
  intros Hec. unfold async_resume, async_run, on_async_read_some.
  rewrite Hec. unfold io_service_run, prepend; simpl. now rewrite app_nil_r.
Qed.

Lemma deliver_analyzes (d : HandshakeDetectStreamType L) ec :
  filter is_analyze (deliver d ec) = [].
Proof.
  unfold deliver. now destruct (negb (TransferCall_isNull (m_origBufferedHandler d))).
Qed.

Lemma async_resume_failed_read (d : HandshakeDetectStreamType L) ec n :
  forall pre requested got e post,
    trace (async_resume d ec n) = pre ++ EvRead requested got e :: post ->
    ec_not e = false ->
    status (async_resume d ec n) = Delivered /\
    reads post = [] /\
    filter is_analyze post = [] /\
    deliveries pre = [] /\
    exists l,
      deliveries post
      = [(l, e, data (commit n (m_buffer d)) ++ bytes_read pre)].
Proof.
  apply (async_resume_ind
    (fun d ec n r =>
       forall pre requested got e post,
         trace r = pre ++ EvRead requested got e :: post ->
         ec_not e = false ->
         status r = Delivered /\
         reads post = [] /\
         filter is_analyze post = [] /\
         deliveries pre = [] /\
         exists l,
           deliveries post
           = [(l, e, data (commit n (m_buffer d)) ++ bytes_read pre)])).
  - intros d0 ec0 n0 _ pre requested got e post Htr _. exfalso.
    revert Htr. apply no_read_no_split; [apply deliver_reads | reflexivity].
  - intros d0 ec0 n0 _ _ pre requested got e post Htr _. exfalso.
    revert Htr. apply no_read_no_split; [|reflexivity]. cbn [trace].
    now rewrite !reads_app, digest_events_reads, deliver_reads.
  - intros d0 ec0 n0 _ _ _ pre requested got e post Htr _. exfalso.
    revert Htr. apply no_read_no_split; [|reflexivity]. cbn [trace].
    now rewrite !reads_app, digest_events_reads.
  - intros d0 ec0 n0 got' ec' t' Hok Hfin Hlt Eread Hfit IH
           pre requested got e post Htr He.
    rewrite trace_prepend, status_prepend in *.
    rewrite <- app_assoc in Htr. cbn [app] in Htr.
    assert (Hfit' : length got' <= buffer_size (m_buffer (rearmed d0 n0))).
    { unfold rearmed. cbn [m_buffer with_buffer]. now rewrite prepare_buffer_size. }
    assert (Hrearmed : data (m_buffer (rearmed d0 n0)) = data (commit n0 (m_buffer d0))).
    { unfold rearmed. cbn [m_buffer with_buffer].
      now rewrite prepare_data, digested_buffer. }
    apply split_at_read in Htr;
      [|apply digest_events_reads | reflexivity].
    destruct Htr as [(-> & Hxy & <-) | (pre' & -> & Hrest)].
    + injection Hxy as <- <- <-.
      rewrite (async_resume_failed _ _ _ He). cbn [status trace].
      rewrite deliver_reads, deliver_analyzes, deliver_deliveries.
      rewrite digest_events_deliveries, digest_events_bytes_read, app_nil_r.
      repeat split. eexists. f_equal. f_equal.
      unfold written. cbn [m_buffer with_buffer with_next_layer].
      rewrite buffer_copy_data. exact Hrearmed.
    + destruct (IH pre' requested got e post Hrest He)
        as (Hst & Hrd & Han & Hdel & l & Hpost).
      repeat split; try assumption.
      * rewrite deliveries_app, digest_events_deliveries. cbn. exact Hdel.
      * exists l. rewrite Hpost. f_equal. f_equal.
        rewrite bytes_read_app, digest_events_bytes_read. cbn [app bytes_read].
        pose proof (written_committed_data (rearmed d0 n0) got' t' Hfit') as Hw.
        unfold committed in Hw. cbn [m_buffer with_buffer] in Hw.
        rewrite Hw, Hrearmed. now rewrite app_assoc.
Qed.

End FailedRead.

(** ** The contract check *)

Section ContractCheck.

Context {L : Type} `{HandshakeDetectLogic L}.

(** A blocking pass that starts with enough bytes reads nothing: it
    analyzes once and ends the run, by a verdict or by the failed check. *)
Lemma do_handshake_run_need_met (d : HandshakeDetectStreamType L) ec :
  ec_not ec = true ->
  max_needed (m_logic d) <= size (m_buffer d) ->
  do_handshake_run d ec
  = if finished (m_logic (analysed d))
    then mk_Run (Returned (on_detect_result (concluded (analysed d)) ec))
                (concluded (analysed d))
                (EvAnalyze (data (m_buffer d))
                   :: conclusion_events (analysed d)
                   ++ [on_detect_event (concluded (analysed d)) ec])
    else mk_Run Aborted (analysed d) [EvAnalyze (data (m_buffer d)); EvFatal].
Proof.
  intros Hec Hge. rewrite do_handshake_run_unfold.
  pose proof (do_handshake_body_pass d ec) as P.
  inversion P as [Hge' Hbad Heq | Hge' Hok Hfin Heq | Hge' Hok Hfin Heq
                 | got d1 ec1 Hlt | got d1 ec1 Hlt | got d1 ec1 Hlt];
    try lia; try congruence; now rewrite Hfin.
Qed.

Lemma async_resume_need_met (d : HandshakeDetectStreamType L) ec n :
  ec_not ec = true ->
  finished (m_logic (digested d n)) = false ->
  max_needed (m_logic d) <= size (commit n (m_buffer d)) ->
  async_resume d ec n
  = mk_Run Aborted (digested d n) (digest_events d n ++ [EvFatal]).
Proof.
  intros Hec Hfin Hge. unfold async_resume, async_run.
  pose proof (on_async_read_some_resumed d ec n) as R.
  inversion R as [Hbad Heq | Hok Hfin' Heq | Hok Hfin' Hlt Heq | Hok Hfin' Hge' Heq];
    try congruence.
  - unfold committed in Hlt. cbn [m_buffer with_buffer] in Hlt. lia.
  - unfold io_service_run, prepend; simpl. now rewrite app_nil_r.
Qed.

(** The zero-read shortcut of the blocking variant: when the arena and
    the caller's bytes already cover the need, no read is issued, and a
    logic that concludes on those bytes has its verdict delivered. *)
Lemma do_handshake_zero_read_shortcut (d : HandshakeDetectStreamType L) ec buffers :
  max_needed (m_logic d) <= size (m_buffer d) + length buffers ->
  reads (trace (do_handshake d ec buffers)) = [] /\
  (finished (analyze (data (m_buffer d) ++ buffers) (m_logic d)) = true ->
   deliveries (trace (do_handshake d ec buffers))
   = [(analyze (data (m_buffer d) ++ buffers) (m_logic d), error_code_default,
       skipn (bytes_consumed (analyze (data (m_buffer d) ++ buffers) (m_logic d)))
             (data (m_buffer d) ++ buffers))]).
Proof.
  intros Hge. unfold do_handshake.
  rewrite do_handshake_run_need_met; [|reflexivity|].
  - unfold analysed, concluded, on_detect_event, conclusion_events.
    cbn [m_logic m_buffer with_logic with_buffer].
    rewrite consume_data, transfer_data.
    split.
    + now destruct (finished (analyze (data (m_buffer d) ++ buffers) (m_logic d))).
    + intros Hfin. now rewrite Hfin.
  - cbn [m_logic m_buffer with_buffer]. unfold size.
    change (input_seq (transfer buffers (m_buffer d)))
      with (data (transfer buffers (m_buffer d))).
    rewrite transfer_data, length_app. exact Hge.
Qed.

End ContractCheck.

(** ** Chunking: the blocking loop *)

Section ChunkingBlocking.

Context {L : Type} `{HandshakeDetectLogic L}.

Hypothesis Hwait : verdict_waits_for_need L.

Lemma observe_prepend (evs : list (Event L)) (r : Run L) :
  deliveries evs = [] -> observe (prepend evs r) = observe r.
Proof.
  intros Hnone. unfold observe.
  rewrite status_prepend, final_prepend, trace_prepend, deliveries_app, Hnone.
  reflexivity.
Qed.

(** A read from a script without failures either finds the script used up
    or takes a prefix of the bytes the script holds. *)
Lemma read_some_data_only (t : Stream) (n : nat) got ec t' :
  data_only t = true ->
  read_some t n = (got, ec, t') ->
  (t = [] /\ got = [] /\ ec = eof) \/
  (ec = error_code_default /\
   pending_bytes t = got ++ pending_bytes t' /\
   data_only t' = true).
Proof.
  destruct t as [|[bs|e] t]; simpl; intros Hdata Hread.
  - injection Hread as <- <- _. left. repeat split.
  - right. destruct (length bs <=? n); injection Hread as <- <- <-.
    + repeat split. assumption.
    + repeat split; [|assumption]. simpl.
      now rewrite app_assoc, firstn_skipn.
  - discriminate.
Qed.

Lemma feed_blocking_unfold (cb : Callback L) rest buffered s :
  feed_blocking cb rest buffered s
  = if max_needed s <=? length buffered then
      if finished (analyze buffered s)
      then verdict_outcome cb buffered (analyze buffered s)
      else mk_Outcome Aborted [] (analyze buffered s) buffered
    else
      match rest with
      | [] => mk_Outcome (Returned eof) [] s buffered
      | b :: rest' =>
          if finished (analyze (buffered ++ [b]) s)
          then verdict_outcome cb (buffered ++ [b]) (analyze (buffered ++ [b]) s)
          else feed_blocking cb rest' (buffered ++ [b]) (analyze (buffered ++ [b]) s)
      end.
Proof. destruct rest; reflexivity. Qed.

(** Feeding a chunk that does not overshoot the need is feeding its bytes
    one by one: the analyses on the way change nothing. *)
Lemma feed_blocking_chunk (cb : Callback L) (chunk : list byte) :
  forall buffered s rest,
    finished s = false ->
    length buffered < max_needed s ->
    length buffered + length chunk <= max_needed s ->
    feed_blocking cb (chunk ++ rest) buffered s
    = if length (buffered ++ chunk) <? max_needed s then
        feed_blocking cb rest (buffered ++ chunk) s
      else if finished (analyze (buffered ++ chunk) s)
      then verdict_outcome cb (buffered ++ chunk) (analyze (buffered ++ chunk) s)
      else feed_blocking cb rest (buffered ++ chunk) (analyze (buffered ++ chunk) s).
Proof.
  induction chunk as [|b chunk IH]; intros buffered s rest Hunf Hlt Hfit.
  - rewrite app_nil_r. simpl app.
    apply Nat.ltb_lt in Hlt. now rewrite Hlt.
  - simpl app. rewrite feed_blocking_unfold.
    replace (max_needed s <=? length buffered) with false
      by (symmetry; apply Nat.leb_gt; exact Hlt).
    simpl in Hfit.
    destruct (length (buffered ++ [b]) <? max_needed s) eqn:Hone.
    + apply Nat.ltb_lt in Hone.
      rewrite (Hwait (buffered ++ [b]) s Hone), Hunf.
      rewrite IH; try assumption.
      * now rewrite <- app_assoc.
      * rewrite length_app in *. simpl in *. lia.
    + apply Nat.ltb_ge in Hone. rewrite length_app in Hone. simpl in Hone.
      assert (chunk = []) by (destruct chunk; [reflexivity | simpl in Hfit; lia]).
      subst chunk. simpl app.
      replace (length (buffered ++ [b]) <? max_needed s) with false
        by (symmetry; apply Nat.ltb_ge; rewrite length_app; simpl; lia).
      reflexivity.
Qed.

Lemma observe_verdict (d1 : HandshakeDetectStreamType L) (evs0 : list (Event L)) :
  deliveries evs0 = [] ->
  observe
    (mk_Run (Returned (on_detect_result (concluded (analysed d1)) error_code_default))
            (concluded (analysed d1))
            (evs0 ++ EvAnalyze (data (m_buffer d1))
                  :: conclusion_events (analysed d1)
                  ++ [on_detect_event (concluded (analysed d1)) error_code_default]))
  = verdict_outcome (m_callback d1) (data (m_buffer d1))
                    (analyze (data (m_buffer d1)) (m_logic d1)).
Proof.
  intros Hnone. unfold observe. cbn [status final trace].
  rewrite deliveries_app, Hnone. reflexivity.
Qed.

Lemma need_met_leb (d : HandshakeDetectStreamType L) :
  max_needed (m_logic d) <= size (m_buffer d) ->
  (max_needed (m_logic d) <=? length (data (m_buffer d))) = true.
Proof. intros Hge. now apply Nat.leb_le. Qed.

Lemma need_unmet_leb (d : HandshakeDetectStreamType L) :
  size (m_buffer d) < max_needed (m_logic d) ->
  (max_needed (m_logic d) <=? length (data (m_buffer d))) = false.
Proof. intros Hlt. now apply Nat.leb_gt. Qed.

(** The blocking loop on any failure-free script does what it does when
    the same bytes arrive one at a time. *)
Lemma do_handshake_run_feed (d : HandshakeDetectStreamType L) :
  data_only (m_next_layer d) = true ->
  finished (m_logic d) = false ->
  observe (do_handshake_run d error_code_default)
  = feed_blocking (m_callback d) (pending_bytes (m_next_layer d))
                  (data (m_buffer d)) (m_logic d).
Proof.
  apply (do_handshake_run_ind
    (fun d ec r =>
       ec = error_code_default ->
       data_only (m_next_layer d) = true ->
       finished (m_logic d) = false ->
       observe r
       = feed_blocking (m_callback d) (pending_bytes (m_next_layer d))
                       (data (m_buffer d)) (m_logic d)));
    [| |reflexivity].
  - intros d0 ec0 st d' evs Hbody -> Honly Hunf.
    invert_pass Hbody; try read_facts.
    + discriminate.
    + (* enough bytes, verdict *)
      rewrite feed_blocking_unfold, need_met_leb by assumption.
      match goal with Hf : finished (m_logic (analysed d0)) = true |- _ =>
        unfold analysed in Hf; cbn [m_logic with_logic] in Hf; rewrite Hf end.
      exact (observe_verdict d0 [] eq_refl).
    + (* enough bytes, contract check *)
      rewrite feed_blocking_unfold, need_met_leb by assumption.
      match goal with Hf : finished (m_logic (analysed d0)) = false |- _ =>
        unfold analysed in Hf; cbn [m_logic with_logic] in Hf; rewrite Hf end.
      reflexivity.
    + (* the script is used up *)
      destruct (read_some_data_only _ _ _ _ _ Honly Hsome)
        as [(Ht & -> & ->) | (-> & _ & _)]; [|discriminate].
      rewrite feed_blocking_unfold, need_unmet_leb, Ht by assumption.
      unfold observe. cbn [status trace final deliveries delivery_of pending_bytes].
      rewrite Hlogic, Hdata, app_nil_r. reflexivity.
    + (* a read, then the verdict *)
      destruct (read_some_data_only _ _ _ _ _ Honly Hsome)
        as [(_ & _ & ->) | (-> & Hpend & _)]; [discriminate|].
      etransitivity;
        [exact (observe_verdict d1 [EvRead _ got error_code_default] eq_refl)|].
      rewrite Hpend, feed_blocking_chunk; try assumption;
        [|unfold size, data in *; lia].
      match goal with Hf : finished (m_logic (analysed d1)) = true |- _ =>
        unfold analysed in Hf; cbn [m_logic with_logic] in Hf;
        rewrite Hlogic, Hdata in Hf end.
      rewrite Hcb, Hlogic, Hdata.
      destruct (length (data (m_buffer d0) ++ got) <? max_needed (m_logic d0)) eqn:Hshort.
      * apply Nat.ltb_lt in Hshort.
        rewrite (Hwait _ _ Hshort) in *. congruence.
      * match goal with Hf : finished _ = true |- _ => now rewrite Hf end.
  - intros d0 ec0 d' ec' evs Hbody IH -> Honly Hunf.
    invert_pass Hbody. read_facts.
    destruct (read_some_data_only _ _ _ _ _ Honly Hsome)
      as [(_ & _ & ->) | (-> & Hpend & Honly')]; [discriminate|].
    rewrite observe_prepend by reflexivity.
    rewrite IH; try reflexivity; try assumption.
    rewrite Hpend, feed_blocking_chunk; try assumption;
      [|unfold size, data in *; lia].
    match goal with Hf : finished (m_logic (analysed d1)) = false |- _ =>
      unfold analysed in Hf; cbn [m_logic with_logic] in Hf;
      rewrite Hlogic, Hdata in Hf end.
    unfold analysed. cbn [m_logic m_buffer m_callback m_next_layer with_logic].
    rewrite Hcb, Hlogic, Hdata.
    destruct (length (data (m_buffer d0) ++ got) <? max_needed (m_logic d0)) eqn:Hshort.
    + apply Nat.ltb_lt in Hshort. now rewrite (Hwait _ _ Hshort).
    + match goal with Hf : finished _ = false |- _ => now rewrite Hf end.
Qed.

End ChunkingBlocking.

(** ** Chunking: the completion-driven loop *)

Section ChunkingAsync.

Context {L : Type} `{HandshakeDetectLogic L}.

Hypothesis Hwait : verdict_waits_for_need L.

Lemma feed_async_chunk (chunk : list byte) :
  forall buffered s rest,
    chunk <> [] ->
    finished s = false ->
    length buffered + length chunk <= max_needed s ->
    feed_async (chunk ++ rest) buffered s
    = if finished (analyze (buffered ++ chunk) s) then
        mk_Outcome Delivered
          [(analyze (buffered ++ chunk) s, error_code_default,
            skipn (bytes_consumed (analyze (buffered ++ chunk) s)) (buffered ++ chunk))]
          (analyze (buffered ++ chunk) s)
          (skipn (bytes_consumed (analyze (buffered ++ chunk) s)) (buffered ++ chunk))
      else if length (buffered ++ chunk) <? max_needed s then
        feed_async rest (buffered ++ chunk) (analyze (buffered ++ chunk) s)
      else mk_Outcome Aborted [] (analyze (buffered ++ chunk) s) (buffered ++ chunk).
Proof.
  induction chunk as [|b chunk IH]; intros buffered s rest Hne Hunf Hfit;
    [congruence|].
  destruct chunk as [|b' chunk]; [reflexivity|].
  simpl in Hfit.
  assert (Hone : length (buffered ++ [b]) < max_needed s)
    by (rewrite length_app; simpl; lia).
  change ((b :: b' :: chunk) ++ rest) with (b :: ((b' :: chunk) ++ rest)).
  cbn [feed_async].
  rewrite (Hwait _ _ Hone), Hunf.
  replace (length (buffered ++ [b]) <? max_needed s) with true
    by (symmetry; now apply Nat.ltb_lt).
  rewrite IH; [|discriminate | assumption | rewrite length_app; simpl; lia].
  now rewrite <- app_assoc.
Qed.

Lemma written_logic (d : HandshakeDetectStreamType L) got t' :
  m_logic (written d got t') = m_logic d.
Proof. reflexivity. Qed.

Lemma written_data (d : HandshakeDetectStreamType L) got t' :
  data (m_buffer (written d got t')) = data (m_buffer d).
Proof. reflexivity. Qed.

Lemma written_next_layer (d : HandshakeDetectStreamType L) got t' :
  m_next_layer (written d got t') = t'.
Proof. reflexivity. Qed.

Lemma digested_logic (d : HandshakeDetectStreamType L) n :
  m_logic (digested d n)
  = if 0 <? n then analyze (data (commit n (m_buffer d))) (m_logic d)
    else m_logic d.
Proof. unfold digested. now destruct (0 <? n). Qed.

Lemma rearmed_facts (d : HandshakeDetectStreamType L) n :
  m_logic (rearmed d n) = m_logic (digested d n) /\
  data (m_buffer (rearmed d n)) = data (commit n (m_buffer d)) /\
  m_next_layer (rearmed d n) = m_next_layer d /\
  buffer_size (m_buffer (rearmed d n))
  = max_needed (m_logic d) - size (commit n (m_buffer d)).
Proof.
  unfold rearmed. cbn [m_logic m_buffer m_next_layer with_buffer].
  rewrite prepare_data, prepare_buffer_size, digested_buffer, digested_next_layer.
  repeat split.
Qed.

(** What one resumption and the rest of the run show, in terms of the
    bytes the script still holds. *)
Lemma async_resume_feed (d : HandshakeDetectStreamType L) (n : nat) :
  data_only (m_next_layer d) = true ->
  observe (async_resume d error_code_default n)
  = if finished (m_logic (digested d n)) then
      mk_Outcome Delivered
        [(m_logic (digested d n), error_code_default,
          skipn (bytes_consumed (m_logic (digested d n)))
                (data (commit n (m_buffer d))))]
        (m_logic (digested d n))
        (skipn (bytes_consumed (m_logic (digested d n)))
               (data (commit n (m_buffer d))))
    else if size (commit n (m_buffer d)) <? max_needed (m_logic d) then
      feed_async (pending_bytes (m_next_layer d))
                 (data (commit n (m_buffer d))) (m_logic (digested d n))
    else mk_Outcome Aborted [] (m_logic (digested d n))
                    (data (commit n (m_buffer d))).
Proof.
  apply (async_resume_ind
    (fun d ec n r =>
       ec = error_code_default ->
       data_only (m_next_layer d) = true ->
       observe r
       = if finished (m_logic (digested d n)) then
           mk_Outcome Delivered
             [(m_logic (digested d n), error_code_default,
               skipn (bytes_consumed (m_logic (digested d n)))
                     (data (commit n (m_buffer d))))]
             (m_logic (digested d n))
             (skipn (bytes_consumed (m_logic (digested d n)))
                    (data (commit n (m_buffer d))))
         else if size (commit n (m_buffer d)) <? max_needed (m_logic d) then
           feed_async (pending_bytes (m_next_layer d))
                      (data (commit n (m_buffer d))) (m_logic (digested d n))
         else mk_Outcome Aborted [] (m_logic (digested d n))
                         (data (commit n (m_buffer d)))));
    [| | | |reflexivity].
  - intros d0 ec0 n0 Hbad ->. discriminate.
  - intros d0 ec0 n0 _ Hfin -> _. rewrite Hfin.
    unfold observe. cbn [status final trace].
    rewrite !deliveries_app, digest_events_deliveries, deliver_deliveries.
    cbn [concluded m_logic m_buffer with_buffer app deliveries delivery_of
         conclusion_events].
    rewrite consume_data, digested_buffer. reflexivity.
  - intros d0 ec0 n0 _ Hfin Hge -> _. rewrite Hfin.
    replace (size (commit n0 (m_buffer d0)) <? max_needed (m_logic d0)) with false
      by (symmetry; apply Nat.ltb_ge; exact Hge).
    unfold observe. cbn [status final trace].
    rewrite deliveries_app, digest_events_deliveries, digested_buffer.
    reflexivity.
  - intros d0 ec0 n0 got ec' t' _ Hfin Hlt Eread Hfit IH -> Honly.
    rewrite Hfin.
    replace (size (commit n0 (m_buffer d0)) <? max_needed (m_logic d0)) with true
      by (symmetry; apply Nat.ltb_lt; exact Hlt).
    rewrite observe_prepend
      by (now rewrite deliveries_app, digest_events_deliveries).
    destruct (rearmed_facts d0 n0) as (Hrl & Hrd & Hrt & Hrs).
    (* below the need the analysis changed nothing *)
    assert (Hsame : m_logic (digested d0 n0) = m_logic d0).
    { rewrite digested_logic. destruct (0 <? n0); [|reflexivity].
      apply Hwait. exact Hlt. }
    rewrite Hsame in *.
    destruct (read_some_data_only _ _ _ _ _ Honly Eread)
      as [(Ht & -> & ->) | (-> & Hpend & Honly')].
    + (* the script is used up: the error is delivered *)
      rewrite (async_resume_failed _ eof _ eq_refl), Ht.
      unfold observe. cbn [status final trace feed_async pending_bytes].
      rewrite deliver_deliveries, written_logic, written_data, Hrl, Hrd.
      reflexivity.
    + rewrite (IH eq_refl Honly'). clear IH.
      assert (Hfit' : length got <= buffer_size (m_buffer (rearmed d0 n0)))
        by (rewrite Hrs; exact Hfit).
      pose proof (written_committed_data (rearmed d0 n0) got t' Hfit') as Hw.
      unfold committed in Hw. cbn [m_buffer with_buffer] in Hw.
      rewrite Hrd in Hw.
      rewrite digested_logic, written_logic, written_next_layer, Hrl, Hw.
      rewrite Hpend.
      assert (Hsz : size (commit (length got)
                            (m_buffer (written (rearmed d0 n0) got t')))
                    = length (data (commit n0 (m_buffer d0)) ++ got))
        by (rewrite <- Hw; reflexivity).
      rewrite Hsz. clear Hsz Hw.
      destruct got as [|b got].
      * (* nothing arrived: the same read is pending again *)
        cbn [length app]. change (0 <? 0) with false. cbv beta iota.
        rewrite Hfin, app_nil_r.
        replace (length (data (commit n0 (m_buffer d0))) <? max_needed (m_logic d0))
          with true by (symmetry; apply Nat.ltb_lt; exact Hlt).
        reflexivity.
      * change (0 <? length (b :: got)) with true. cbv beta iota.
        rewrite feed_async_chunk;
          [reflexivity | discriminate | assumption |].
        unfold committed, size, data in *. cbn [m_buffer with_buffer] in *. lia.
Qed.

End ChunkingAsync.

(** ** The two ways of delivering a byte sequence *)

Lemma one_byte_reads_data_only (bytes : list byte) :
  data_only (one_byte_reads bytes) = true.
Proof. induction bytes as [|b bytes IH]; simpl; [reflexivity | exact IH]. Qed.

Lemma one_byte_reads_pending (bytes : list byte) :
  pending_bytes (one_byte_reads bytes) = bytes.
Proof. induction bytes as [|b bytes IH]; simpl; [reflexivity | now rewrite IH]. Qed.

Lemma single_read_pending (bytes : list byte) :
  pending_bytes (single_read bytes) = bytes.
Proof. simpl. apply app_nil_r. Qed.

(** ** The examples of the specification *)

(** A logic that needs one byte: [0x16] is an encrypted handshake, nothing
    is consumed and the byte is handed on. *)
Example peek_encrypted :
  deliveries (trace (handshake (construct (L := PeekVerdict) keep_ec [Data [x16]])
                               error_code_default))
  = [(Encrypted, error_code_default, [x16])].
Proof. reflexivity. Qed.

(** ['G'] is plaintext. *)
Example peek_plaintext :
  deliveries (trace (handshake (construct (L := PeekVerdict) keep_ec [Data [x47]])
                               error_code_default))
  = [(Plaintext, error_code_default, [x47])].
Proof. reflexivity. Qed.

(** The transport yields [0x16] and then end of stream: detection
    completes on the first read alone, in both variants. *)
Example peek_then_end_of_stream :
  reads (trace (handshake (construct (L := PeekVerdict) keep_ec [Data [x16]])
                          error_code_default))
  = [EvRead 1 [x16] error_code_default] /\
  reads (trace (async_handshake (construct (L := PeekVerdict) keep_ec [Data [x16]]) 1))
  = [EvRead 1 [x16] error_code_default] /\
  deliveries (trace (async_handshake (construct (L := PeekVerdict) keep_ec [Data [x16]]) 1))
  = [(Encrypted, error_code_default, [x16])].
Proof. repeat split. Qed.

(** * The properties stated by the specification *)

(** C4. In every run in which detection finishes with the logic reporting
    [k] bytes consumed, the [k] bytes taken off the front of the arena
    followed by the leftover bytes handed to the callback are exactly the
    bytes ever committed to the arena: the bytes it held at the start
    (filled bytes), the caller's initial bytes, and every byte the
    transport delivered, in order.  Blocking variant: every delivery is a
    verdict.  Completion-driven variant: the deliveries that carry no
    error are the verdicts. *)
Theorem C4_consumed_then_leftover_is_all_committed
    {L : Type} `{HandshakeDetectLogic L}
    (d : HandshakeDetectStreamType L) (ec : error_code) (buffers : list byte) :
  (forall l e leftover,
      In (l, e, leftover) (deliveries (trace (do_handshake d ec buffers))) ->
      let all_committed :=
        data (m_buffer d) ++ buffers
          ++ bytes_read (trace (do_handshake d ec buffers)) in
      leftover = skipn (bytes_consumed l) all_committed /\
      firstn (bytes_consumed l) all_committed ++ leftover = all_committed) /\
  (forall l e leftover,
      In (l, e, leftover)
         (deliveries (trace (async_run (async_do_handshake d buffers)))) ->
      ec_not e = true ->
      let all_committed :=
        data (m_buffer d) ++ buffers
          ++ bytes_read (trace (async_run (async_do_handshake d buffers))) in
      leftover = skipn (bytes_consumed l) all_committed /\
      firstn (bytes_consumed l) all_committed ++ leftover = all_committed).
Proof.
  split.
  - intros l e leftover Hin all_committed.
    assert (Hl : leftover = skipn (bytes_consumed l) all_committed).
    { unfold do_handshake in Hin.
      rewrite (do_handshake_run_leftover _ _ l e leftover Hin).
      subst all_committed. unfold do_handshake.
      cbn [m_buffer with_buffer]. now rewrite transfer_data, app_assoc. }
    split; [exact Hl|]. rewrite Hl. apply firstn_skipn.
  - intros l e leftover Hin He all_committed.
    assert (Hl : leftover = skipn (bytes_consumed l) all_committed).
    { destruct (async_do_handshake_resume d buffers) as (sb & _ & Hdata & Heq).
      rewrite Heq in Hin.
      rewrite (async_resume_leftover _ _ _ l e leftover Hin He).
      subst all_committed. rewrite Heq.
      unfold committed. cbn [m_buffer with_buffer].
      now rewrite Hdata, app_assoc. }
    split; [exact Hl|]. rewrite Hl. apply firstn_skipn.
Qed.

Lemma C4_witness :
  [x47] = skipn 0 ([] ++ [] ++ [x47]) /\
  firstn 0 ([] ++ [] ++ [x47]) ++ [x47] = [] ++ [] ++ [x47].
Proof.
  exact (proj1 (C4_consumed_then_leftover_is_all_committed
                  (construct (L := PeekVerdict) keep_ec [Data [x47; x45]])
                  eof [])
               Plaintext error_code_default [x47]
               (or_introl eq_refl)).
Defined.

(** C10. The blocking variant starts from a cleared error status, so the
    value in the caller's slot on entry does not matter; and when
    detection finishes, [on_detect] is handed a success status and
    whatever it leaves in the error argument is what [do_handshake]
    returns. *)
Theorem C10_blocking_returns_what_on_detect_leaves
    {L : Type} `{HandshakeDetectLogic L}
    (d : HandshakeDetectStreamType L) (ec ec' : error_code)
    (buffers : list byte) :
  do_handshake d ec buffers = do_handshake d ec' buffers /\
  (forall l e leftover,
      In (EvOnDetect l e leftover) (trace (do_handshake d ec buffers)) ->
      ec_not e = true /\
      status (do_handshake d ec buffers)
      = Returned (on_detect (m_callback d) l e leftover)).
Proof.
  split; [reflexivity|].
  intros l e leftover Hin. unfold do_handshake in *.
  exact (do_handshake_run_on_detect _ error_code_default eq_refl l e leftover Hin).
Qed.

(** A callback that rejects turns a finished detection into an error
    return. *)
Lemma C10_witness :
  status (handshake (construct (L := PeekVerdict) reject_ec [Data [x16]]) eof)
  = Returned (mk_error_code 71 generic_category).
Proof.
  exact (proj2 (proj2 (C10_blocking_returns_what_on_detect_leaves
                         (construct (L := PeekVerdict) reject_ec [Data [x16]])
                         eof eof [])
                      Encrypted error_code_default [x16]
                      (or_intror (or_intror (or_intror (or_intror
                         (or_introl eq_refl))))))).
Defined.



(** C7. When [bytes_consumed] never exceeds the bytes the logic was last
    given to analyze (and a logic that has been given nothing reports
    nothing consumed), every [consume] call of either variant asks for no
    more than the arena's readable count at that moment, and the
    consumed-bounds assertion holds. *)
Theorem C7_consumed_never_exceeds_readable
    {L : Type} `{HandshakeDetectLogic L}
    (d : HandshakeDetectStreamType L) (ec : error_code) (buffers : list byte) :
  consumed_within_analysed L ->
  Forall consume_in_bounds (trace (do_handshake d ec buffers)) /\
  (bytes_consumed (m_logic d) = 0 ->
   Forall consume_in_bounds (trace (async_run (async_do_handshake d buffers)))).
Proof.
  intros Hbounded. split.
  - unfold do_handshake. now apply do_handshake_run_in_bounds.
  - intros Hzero.
    destruct (async_do_handshake_resume d buffers) as (sb & _ & _ & ->).
    apply async_resume_in_bounds; [assumption|].
    cbn [m_logic m_buffer with_buffer]. lia.
Qed.

Lemma C7_witness :
  Forall consume_in_bounds
    (trace (handshake (construct (L := PeekVerdict) keep_ec [Data [x16]]) eof)) /\
  Forall consume_in_bounds
    (trace (async_run (async_do_handshake
                         (construct (L := PeekVerdict) keep_ec [Data [x16]]) []))).
Proof.
  assert (Hbounded : consumed_within_analysed PeekVerdict).
  { intros bytes s. simpl. lia. }
  destruct (C7_consumed_never_exceeds_readable
              (construct (L := PeekVerdict) keep_ec [Data [x16]]) eof []
              Hbounded) as [Hblocking Hasync].
  split; [exact Hblocking | exact (Hasync eq_refl)].
Defined.

(** C6. On an instance whose two original handlers are both null, the
    entry point used sets its own handler and leaves the other null for
    the whole run; the callback is called at most once, through the
    [on_async_detect] overload of the handler that is set, whether the
    delivery carries a verdict or an error; and the handler assertions
    hold. *)
Theorem C6_one_pending_continuation
    {L : Type} `{HandshakeDetectLogic L}
    (d : HandshakeDetectStreamType L) (buffers : list byte) (handler : nat) :
  m_origHandler d = ErrorCall_null ->
  m_origBufferedHandler d = TransferCall_null ->
  (m_origHandler (final (async_handshake d handler)) = ErrorCall_of handler /\
   m_origBufferedHandler (final (async_handshake d handler)) = TransferCall_null /\
   Forall (goes_to_error_only handler) (trace (async_handshake d handler)) /\
   length (deliveries (trace (async_handshake d handler))) <= 1) /\
  (m_origHandler (final (async_handshake_buffered d buffers handler))
   = ErrorCall_null /\
   m_origBufferedHandler (final (async_handshake_buffered d buffers handler))
   = TransferCall_of handler /\
   Forall (goes_to_error_plus_count handler)
          (trace (async_handshake_buffered d buffers handler)) /\
   length (deliveries (trace (async_handshake_buffered d buffers handler))) <= 1).
Proof.
  intros Hoh Hobh. split.
  - unfold async_handshake.
    destruct (async_do_handshake_resume (with_origHandler d (ErrorCall_of handler)) [])
      as (sb & _ & _ & ->).
    rewrite final_prepend, trace_prepend.
    destruct (async_resume_handlers
                (with_buffer (with_origHandler d (ErrorCall_of handler)) sb)
                error_code_default (length (@nil byte)))
      as (Hfoh & Hfobh & Htr).
    cbn [m_origHandler m_origBufferedHandler with_buffer with_origHandler]
      in Hfoh, Hfobh, Htr |- *.
    rewrite Hobh in *. repeat split; try assumption.
    + apply Forall_cons; [reflexivity|].
      eapply Forall_impl; [|exact Htr]. apply error_only_respected.
    + cbn [app deliveries delivery_of]. apply async_resume_delivers_once.
  - unfold async_handshake_buffered.
    destruct (async_do_handshake_resume
                (with_origBufferedHandler d (TransferCall_of handler)) buffers)
      as (sb & _ & _ & ->).
    rewrite final_prepend, trace_prepend.
    destruct (async_resume_handlers
                (with_buffer (with_origBufferedHandler d (TransferCall_of handler)) sb)
                error_code_default (length buffers))
      as (Hfoh & Hfobh & Htr).
    cbn [m_origHandler m_origBufferedHandler with_buffer with_origBufferedHandler]
      in Hfoh, Hfobh, Htr |- *.
    rewrite Hoh in *. repeat split; try assumption.
    + apply Forall_cons; [reflexivity|].
      eapply Forall_impl; [|exact Htr]. apply error_plus_count_respected.
    + cbn [app deliveries delivery_of]. apply async_resume_delivers_once.
Qed.

Lemma C6_witness :
  m_origHandler (final (async_handshake
                          (construct (L := PeekVerdict) keep_ec [Failure eof]) 7))
  = ErrorCall_of 7 /\
  m_origBufferedHandler
    (final (async_handshake_buffered
              (construct (L := PeekVerdict) keep_ec [Data [x16]]) [x47] 9))
  = TransferCall_of 9.
Proof.
  split.
  - exact (proj1 (proj1 (C6_one_pending_continuation
                           (construct (L := PeekVerdict) keep_ec [Failure eof])
                           [] 7 eq_refl eq_refl))).
  - exact (proj1 (proj2 (proj2 (C6_one_pending_continuation
                                  (construct (L := PeekVerdict) keep_ec [Data [x16]])
                                  [x47] 9 eq_refl eq_refl)))).
Defined.

(** C1 (as amended).  When a transport read completes with an error, no
    further read and no further [analyze] call is made by either variant.
    The completion-driven variant then calls [on_async_detect] with that
    exact error and the bytes buffered so far (which overload is settled
    by C6).  The blocking variant does not call [on_detect]: the error is
    what [do_handshake] returns, and the arena keeps the bytes buffered so
    far. *)
Theorem C1_failed_read_ends_the_loop
    {L : Type} `{HandshakeDetectLogic L}
    (d : HandshakeDetectStreamType L) (ec : error_code) (buffers : list byte) :
  (forall pre requested got e post,
      trace (do_handshake d ec buffers) = pre ++ EvRead requested got e :: post ->
      ec_not e = false ->
      post = [] /\
      status (do_handshake d ec buffers) = Returned e /\
      deliveries (trace (do_handshake d ec buffers)) = [] /\
      data (m_buffer (final (do_handshake d ec buffers)))
      = data (m_buffer d) ++ buffers ++ bytes_read pre) /\
  (forall pre requested got e post,
      trace (async_run (async_do_handshake d buffers))
      = pre ++ EvRead requested got e :: post ->
      ec_not e = false ->
      status (async_run (async_do_handshake d buffers)) = Delivered /\
      reads post = [] /\
      filter is_analyze post = [] /\
      deliveries pre = [] /\
      exists l,
        deliveries post
        = [(l, e, data (m_buffer d) ++ buffers ++ bytes_read pre)]).
Proof.
  split.
  - intros pre requested got e post Htr He. unfold do_handshake in *.
    destruct (do_handshake_run_failed_read _ _ pre requested got e post Htr He)
      as (Hpost & Hst & Hdel & Hfin).
    repeat split; try assumption.
    rewrite Hfin. cbn [m_buffer with_buffer].
    now rewrite transfer_data, app_assoc.
  - intros pre requested got e post Htr He.
    destruct (async_do_handshake_resume d buffers) as (sb & _ & Hdata & Heq).
    rewrite Heq in *.
    destruct (async_resume_failed_read _ _ _ pre requested got e post Htr He)
      as (Hst & Hrd & Han & Hdel & l & Hpost).
    repeat split; try assumption.
    exists l. rewrite Hpost. cbn [m_buffer with_buffer].
    now rewrite Hdata, app_assoc.
Qed.

Lemma C1_witness :
  status (handshake (construct (L := PeekVerdict) keep_ec [Failure eof]) eof)
  = Returned eof /\
  exists l,
    deliveries [EvBassert origHandler_notNull false;
                EvOnAsyncDetectError Undecided eof [] ErrorCall_null]
    = [(l, eof, [])].
Proof.
  pose proof (C1_failed_read_ends_the_loop
                (construct (L := PeekVerdict) keep_ec [Failure eof])
                eof []) as [Hblocking Hasync].
  split.
  - exact (proj1 (proj2 (Hblocking [] 1 [] eof [] eq_refl eq_refl))).
  - exact (proj2 (proj2 (proj2 (proj2
             (Hasync [] 1 [] eof
                     [EvBassert origHandler_notNull false;
                      EvOnAsyncDetectError Undecided eof [] ErrorCall_null]
                     eq_refl eq_refl))))).
Defined.

(** C1 as the specification states it fails for the blocking variant: the
    only read fails with end of stream, and [on_detect] is never called. *)
Lemma C1_counterexample :
  ~ on_detect_receives_read_error
      (handshake (construct (L := PeekVerdict) keep_ec [Failure eof])
                 error_code_default).
Proof.
  intros Hstated.
  destruct (Hstated [] 1 [] eof [] eq_refl eq_refl) as (l & leftover & Hin).
  simpl in Hin. destruct Hin as [Hin|[]]. discriminate Hin.
Qed.

(** A pass entered with the need already covered.  When the logic is
    unfinished although the arena holds at least [max_needed] bytes on
    entry, neither variant issues another transport read.  The
    completion-driven resumption stops on the contract check.  The
    blocking pass calls [analyze] once more on the same bytes and stops
    on the check if the logic is still unfinished -- always so when
    re-analysing the same bytes changes nothing; if that call finishes,
    the verdict is delivered. *)
Lemma need_met_on_entry_stops_without_reading
    {L : Type} `{HandshakeDetectLogic L}
    (d : HandshakeDetectStreamType L) (ec : error_code) :
  ec_not ec = true ->
  (finished (m_logic d) = false ->
   max_needed (m_logic d) <= size (m_buffer d) ->
   reads (trace (do_handshake_run d ec)) = [] /\
   (finished (m_logic (analysed d)) = false ->
    status (do_handshake_run d ec) = Aborted /\
    deliveries (trace (do_handshake_run d ec)) = []) /\
   (analyze (data (m_buffer d)) (m_logic d) = m_logic d ->
    status (do_handshake_run d ec) = Aborted) /\
   (finished (m_logic (analysed d)) = true ->
    status (do_handshake_run d ec)
    = Returned (on_detect_result (concluded (analysed d)) ec))) /\
  (forall n,
      finished (m_logic (digested d n)) = false ->
      max_needed (m_logic d) <= size (commit n (m_buffer d)) ->
      status (async_resume d ec n) = Aborted /\
      reads (trace (async_resume d ec n)) = [] /\
      deliveries (trace (async_resume d ec n)) = []).
Proof.
  intros Hec. split.
  - intros Hunf Hge. rewrite (do_handshake_run_need_met d ec Hec Hge).
    assert (Hstuck : finished (m_logic (analysed d)) = false ->
                     status (if finished (m_logic (analysed d))
                             then mk_Run (Returned (on_detect_result (concluded (analysed d)) ec))
                                    (concluded (analysed d))
                                    (EvAnalyze (data (m_buffer d))
                                       :: conclusion_events (analysed d)
                                       ++ [on_detect_event (concluded (analysed d)) ec])
                             else mk_Run Aborted (analysed d)
                                    [EvAnalyze (data (m_buffer d)); EvFatal])
                     = Aborted).
    { intros Hstill. now rewrite Hstill. }
    split; [now destruct (finished (m_logic (analysed d)))|].
    split; [|split].
    + intros Hstill. split; [now apply Hstuck|]. now rewrite Hstill.
    + intros Hsame. apply Hstuck.
      unfold analysed. cbn [m_logic with_logic]. now rewrite Hsame.
    + intros Hfin. now rewrite Hfin.
  - intros n Hfin Hge. rewrite (async_resume_need_met d ec n Hec Hfin Hge).
    cbn [status trace].
    rewrite reads_app, deliveries_app, digest_events_reads, digest_events_deliveries.
    repeat split.
Qed.

(** C5.  A run whose logic is unfinished while the arena holds what it
    asks for is not always stopped by the contract check: each variant
    compares counts it sampled earlier in the pass, and each lets through
    a case that the other one stops.

    (a) The blocking check compares the readable count sampled before the
    read.  The first pass of the counting logic reads the one byte asked
    for and leaves the logic unfinished; the check passes on the earlier
    count, the next pass analyzes again and the verdict is delivered with
    success.  The completion-driven variant stops on the check after that
    first byte.

    (b) The completion-driven check compares [max_needed] sampled before
    [analyze].  The first completion of the dropping logic leaves it
    unfinished, asking for one byte and holding one; the check passes on
    the earlier need, a read of two more bytes is issued, and the end of
    stream it finds is delivered to the callback as an error.  The
    blocking variant stops on the check after that first byte, without
    another read. *)
Theorem C5_contract_check_compares_earlier_samples :
  (fst (do_handshake_body (H := CountingLogic) counting_detector
                          error_code_default)
   = Again counting_detector_after_one_pass error_code_default /\
   @finished nat CountingLogic (m_logic counting_detector_after_one_pass) = false /\
   @max_needed nat CountingLogic (m_logic counting_detector_after_one_pass)
   <= size (m_buffer counting_detector_after_one_pass) /\
   ~ aborts_once_need_is_met (H := CountingLogic)
       counting_detector_after_one_pass /\
   view (handshake (H := CountingLogic) counting_detector eof)
   = (Returned error_code_default,
      [(2, error_code_default, [x16])], [x16]) /\
   view (async_handshake (H := CountingLogic) counting_detector 7)
   = (Aborted, [], [x16])) /\
  (fst (async_do_handshake (H := DropLogic)
          (with_origHandler (drop_detector [Data [x47]]) (ErrorCall_of 7)) [])
   = Pending drop_detector_armed /\
   complete_read (H := DropLogic) drop_detector_armed
   = (Pending drop_detector_rearmed,
      [EvRead 3 [x47] error_code_default; EvAnalyze [x47]]) /\
   @finished (list byte) DropLogic (m_logic drop_detector_rearmed) = false /\
   @max_needed (list byte) DropLogic (m_logic drop_detector_rearmed)
   <= size (m_buffer drop_detector_rearmed) /\
   reads (trace (async_handshake (H := DropLogic) (drop_detector [Data [x47]]) 7))
   = [EvRead 3 [x47] error_code_default; EvRead 2 [] eof] /\
   view (async_handshake (H := DropLogic) (drop_detector [Data [x47]]) 7)
   = (Delivered, [([x47], eof, [x47])], [x47]) /\
   view (handshake (H := DropLogic) (drop_detector [Data [x47]]) eof)
   = (Aborted, [], [x47])).
Proof.
  split.
  - split; [reflexivity|]. split; [reflexivity|]. split; [apply le_n|].
    split; [|split; reflexivity].
    intros Hstated. specialize (Hstated eq_refl (le_n 1)).
    vm_compute in Hstated. discriminate Hstated.
  - split; [reflexivity|]. split; [reflexivity|]. split; [reflexivity|].
    split; [apply le_n|]. repeat split.
Qed.

(** C2.  The zero-read shortcut holds in the blocking variant and is
    missed by the completion-driven one.  With one byte filled for a logic
    that needs one byte, [handshake] reaches the verdict without a read;
    [async_handshake] on the same instance bootstraps with zero bytes
    transferred, skips [analyze], and stops on the contract check with no
    verdict delivered. *)
Theorem C2_filled_bytes_are_not_analysed_on_async_bootstrap :
  max_needed (m_logic filled_peek_detector) <= size (m_buffer filled_peek_detector) /\
  reads (trace (handshake filled_peek_detector eof)) = [] /\
  deliveries (trace (handshake filled_peek_detector eof))
  = [(Encrypted, error_code_default, [x16])] /\
  status (async_handshake filled_peek_detector 7) = Aborted /\
  filter is_analyze (trace (async_handshake filled_peek_detector 7)) = [] /\
  deliveries (trace (async_handshake filled_peek_detector 7)) = [].
Proof. split; [apply le_n|]. repeat split. Qed.

(** C3.  The two variants do not always agree.  On the filled instance of
    C2 the blocking variant delivers a verdict and the completion-driven
    one delivers none.  With initial bytes and a logic that can conclude
    early, the completion-driven variant analyzes before it reads and
    hands over one leftover byte, where the blocking variant reads first
    and hands over two. *)
Theorem C3_variants_disagree :
  (deliveries (trace (handshake filled_peek_detector eof))
   = [(Encrypted, error_code_default, [x16])] /\
   deliveries (trace (async_handshake filled_peek_detector 7)) = []) /\
  (deliveries (trace (handshake_buffered (H := EarlyLogic) early_detector [x47] eof))
   = [(Plaintext, error_code_default, [x47; x45])] /\
   deliveries (trace (async_handshake_buffered (H := EarlyLogic)
                        early_detector [x47] 7))
   = [(Plaintext, error_code_default, [x47])]).
Proof. repeat split. Qed.

(** ** Chunking under the re-scan contract *)

Section RescanChunking.

Context {L : Type} `{HandshakeDetectLogic L}.

Hypothesis Hneed : need_settled_below_need L.
Hypothesis Hbelow : no_verdict_below_need L.
Hypothesis Hrescan : rescan_from_start L.

(** A logic that is [base] or a scan of the buffered bytes from [base]
    asks for what [base] asks for. *)
Lemma scanned_need (base : L) (buffered : list byte) (cur : L) :
  finished base = false ->
  length buffered < max_needed base ->
  cur = base \/ cur = analyze buffered base ->
  max_needed cur = max_needed base.
Proof. intros Hbase Hlt [->| ->]; [reflexivity | now apply Hneed]. Qed.

(** Scanning longer bytes from such a logic is scanning them from
    [base]. *)
Lemma scanned_rescan (base : L) (buffered more : list byte) (cur : L) :
  finished base = false ->
  length buffered < max_needed base ->
  cur = base \/ cur = analyze buffered base ->
  analyze (buffered ++ more) cur = analyze (buffered ++ more) base.
Proof. intros Hbase Hlt [->| ->]; [reflexivity | now apply Hrescan]. Qed.

Lemma view_prepend (evs : list (Event L)) (r : Run L) :
  deliveries evs = [] -> view (prepend evs r) = view r.
Proof.
  intros Hnone. unfold view.
  rewrite status_prepend, final_prepend, trace_prepend, deliveries_app, Hnone.
  reflexivity.
Qed.

Lemma view_of_verdict (d1 : HandshakeDetectStreamType L) (evs0 : list (Event L)) :
  deliveries evs0 = [] ->
  view
    (mk_Run (Returned (on_detect_result (concluded (analysed d1)) error_code_default))
            (concluded (analysed d1))
            (evs0 ++ EvAnalyze (data (m_buffer d1))
                  :: conclusion_events (analysed d1)
                  ++ [on_detect_event (concluded (analysed d1)) error_code_default]))
  = view_verdict (m_callback d1) (data (m_buffer d1))
                 (analyze (data (m_buffer d1)) (m_logic d1)).
Proof.
  intros Hnone. unfold view. cbn [status final trace].
  rewrite deliveries_app, Hnone. reflexivity.
Qed.

(** Feeding a chunk that does not overshoot the need is feeding its bytes
    one by one: the scans on the way reach no verdict and leave no mark. *)
Lemma feed_blocking_view_chunk (cb : Callback L) (base : L) (chunk : list byte) :
  finished base = false ->
  forall buffered rest,
    length buffered < max_needed base ->
    length buffered + length chunk <= max_needed base ->
    feed_blocking_view cb (chunk ++ rest) buffered base
    = if length (buffered ++ chunk) <? max_needed base then
        feed_blocking_view cb rest (buffered ++ chunk) base
      else if finished (analyze (buffered ++ chunk) base)
      then view_verdict cb (buffered ++ chunk) (analyze (buffered ++ chunk) base)
      else if max_needed (analyze (buffered ++ chunk) base)
              <=? length (buffered ++ chunk)
      then settle cb (buffered ++ chunk) (analyze (buffered ++ chunk) base)
      else feed_blocking_view cb rest (buffered ++ chunk)
                              (analyze (buffered ++ chunk) base).
Proof.
  intros Hbase.
  induction chunk as [|b chunk IH]; intros buffered rest Hlt Hfit.
  - rewrite app_nil_r. simpl app.
    apply Nat.ltb_lt in Hlt. now rewrite Hlt.
  - simpl app. cbn [feed_blocking_view]. simpl in Hfit.
    destruct (length (buffered ++ [b]) <? max_needed base) eqn:Hone.
    + apply Nat.ltb_lt in Hone.
      rewrite (Hbelow _ _ Hbase Hone).
      rewrite IH; [|assumption | rewrite length_app in *; simpl in *; lia].
      now rewrite <- app_assoc.
    + apply Nat.ltb_ge in Hone. rewrite length_app in Hone. simpl in Hone.
      assert (chunk = []) by (destruct chunk; [reflexivity | simpl in Hfit; lia]).
      subst chunk.
      replace (length (buffered ++ [b]) <? max_needed base) with false
        by (symmetry; apply Nat.ltb_ge; rewrite length_app; simpl; lia).
      reflexivity.
Qed.

(** The blocking loop on any failure-free script ends as it does when the
    same bytes arrive one at a time. *)
Lemma do_handshake_run_view (d : HandshakeDetectStreamType L) :
  forall base,
    data_only (m_next_layer d) = true ->
    finished base = false ->
    max_needed (m_logic d) = max_needed base ->
    (size (m_buffer d) < max_needed base ->
     m_logic d = base \/ m_logic d = analyze (data (m_buffer d)) base) ->
    view (do_handshake_run d error_code_default)
    = if max_needed base <=? length (data (m_buffer d))
      then settle (m_callback d) (data (m_buffer d)) (m_logic d)
      else feed_blocking_view (m_callback d) (pending_bytes (m_next_layer d))
                              (data (m_buffer d)) base.
Proof.
  enough (Hall : forall ec,
             ec = error_code_default ->
             forall base,
               data_only (m_next_layer d) = true ->
               finished base = false ->
               max_needed (m_logic d) = max_needed base ->
               (size (m_buffer d) < max_needed base ->
                m_logic d = base \/ m_logic d = analyze (data (m_buffer d)) base) ->
               view (do_handshake_run d ec)
               = if max_needed base <=? length (data (m_buffer d))
                 then settle (m_callback d) (data (m_buffer d)) (m_logic d)
                 else feed_blocking_view (m_callback d)
                        (pending_bytes (m_next_layer d))
                        (data (m_buffer d)) base)
    by (intros base; now apply Hall).
  intros ec. revert d ec.
  apply (do_handshake_run_ind
    (fun d ec r =>
       ec = error_code_default ->
       forall base,
         data_only (m_next_layer d) = true ->
         finished base = false ->
         max_needed (m_logic d) = max_needed base ->
         (size (m_buffer d) < max_needed base ->
          m_logic d = base \/ m_logic d = analyze (data (m_buffer d)) base) ->
         view r
         = if max_needed base <=? length (data (m_buffer d))
           then settle (m_callback d) (data (m_buffer d)) (m_logic d)
           else feed_blocking_view (m_callback d) (pending_bytes (m_next_layer d))
                                   (data (m_buffer d)) base)).
  - intros d0 ec0 st d' evs Hbody -> base Honly Hbase Hm Hinv.
    invert_pass Hbody; try read_facts.
    + discriminate.
    + (* enough bytes, verdict *)
      replace (max_needed base <=? length (data (m_buffer d0))) with true
        by (symmetry; apply Nat.leb_le; unfold size, data in *; lia).
      unfold settle.
      match goal with Hf : finished (m_logic (analysed d0)) = true |- _ =>
        unfold analysed in Hf; cbn [m_logic with_logic] in Hf; rewrite Hf end.
      exact (view_of_verdict d0 [] eq_refl).
    + (* enough bytes, contract check *)
      replace (max_needed base <=? length (data (m_buffer d0))) with true
        by (symmetry; apply Nat.leb_le; unfold size, data in *; lia).
      unfold settle.
      match goal with Hf : finished (m_logic (analysed d0)) = false |- _ =>
        unfold analysed in Hf; cbn [m_logic with_logic] in Hf; rewrite Hf end.
      reflexivity.
    + (* the script is used up *)
      replace (max_needed base <=? length (data (m_buffer d0))) with false
        by (symmetry; apply Nat.leb_gt; unfold size, data in *; lia).
      destruct (read_some_data_only _ _ _ _ _ Honly Hsome)
        as [(Ht & -> & ->) | (-> & _ & _)]; [|discriminate].
      rewrite Ht. unfold view.
      cbn [status trace final deliveries delivery_of pending_bytes
           feed_blocking_view].
      rewrite Hdata, app_nil_r. reflexivity.
    + (* a read, then the verdict *)
      replace (max_needed base <=? length (data (m_buffer d0))) with false
        by (symmetry; apply Nat.leb_gt; unfold size, data in *; lia).
      destruct (read_some_data_only _ _ _ _ _ Honly Hsome)
        as [(_ & _ & ->) | (-> & Hpend & _)]; [discriminate|].
      etransitivity;
        [exact (view_of_verdict d1 [EvRead _ got error_code_default] eq_refl)|].
      assert (Hlt : length (data (m_buffer d0)) < max_needed base)
        by (unfold size, data in *; lia).
      rewrite Hpend, feed_blocking_view_chunk;
        [|assumption | assumption | unfold size, data in *; lia].
      match goal with Hf : finished (m_logic (analysed d1)) = true |- _ =>
        unfold analysed in Hf; cbn [m_logic with_logic] in Hf;
        rewrite Hlogic, Hdata in Hf;
        rewrite (scanned_rescan base _ got _ Hbase Hlt (Hinv Hlt)) in Hf end.
      rewrite Hcb, Hlogic, Hdata, (scanned_rescan base _ got _ Hbase Hlt (Hinv Hlt)).
      destruct (length (data (m_buffer d0) ++ got) <? max_needed base) eqn:Hshort.
      * apply Nat.ltb_lt in Hshort.
        rewrite (Hbelow _ _ Hbase Hshort) in *. discriminate.
      * match goal with Hf : finished _ = true |- _ => now rewrite Hf end.
  - intros d0 ec0 d' ec' evs Hbody IH -> base Honly Hbase Hm Hinv.
    invert_pass Hbody. read_facts.
    destruct (read_some_data_only _ _ _ _ _ Honly Hsome)
      as [(_ & _ & ->) | (-> & Hpend & Honly')]; [discriminate|].
    specialize (IH eq_refl).
    assert (Hlt : length (data (m_buffer d0)) < max_needed base)
      by (unfold size, data in *; lia).
    replace (max_needed base <=? length (data (m_buffer d0))) with false
      by (symmetry; apply Nat.leb_gt; exact Hlt).
    rewrite view_prepend by reflexivity.
    assert (Hscan : m_logic (analysed d1)
                    = analyze (data (m_buffer d0) ++ got) base).
    { unfold analysed. cbn [m_logic with_logic].
      rewrite Hlogic, Hdata. exact (scanned_rescan base _ got _ Hbase Hlt (Hinv Hlt)). }
    assert (Hdata' : data (m_buffer (analysed d1)) = data (m_buffer d0) ++ got)
      by (unfold analysed; cbn [m_buffer with_logic]; exact Hdata).
    assert (Hcb' : m_callback (analysed d1) = m_callback d0)
      by (unfold analysed; cbn [m_callback with_logic]; exact Hcb).
    assert (Ht' : m_next_layer (analysed d1) = m_next_layer d1) by reflexivity.
    match goal with Hf : finished (m_logic (analysed d1)) = false |- _ =>
      rename Hf into Hunf' end.
    rewrite Hpend, feed_blocking_view_chunk;
      [|assumption | assumption | unfold size, data in *; lia].
    destruct (length (data (m_buffer d0) ++ got) <? max_needed base) eqn:Hshort.
    + (* still below the need: the same need, the same base *)
      apply Nat.ltb_lt in Hshort.
      rewrite (IH base); try assumption.
      * rewrite Hdata', Hcb', Ht'.
        replace (max_needed base <=? length (data (m_buffer d0) ++ got)) with false
          by (symmetry; apply Nat.leb_gt; exact Hshort).
        reflexivity.
      * rewrite Hscan. now apply Hneed.
      * intros _. right. now rewrite Hscan, Hdata'.
    + (* the need is covered without a verdict: the next pass starts from
         the logic this scan left *)
      rewrite (IH (m_logic (analysed d1))); try assumption; try reflexivity.
      * rewrite Hdata', Hcb', Ht', Hscan.
        rewrite Hscan in Hunf'. now rewrite Hunf'.
      * intros _. now left.
Qed.

Lemma feed_async_view_chunk (base : L) (chunk : list byte) :
  finished base = false ->
  forall buffered cur rest,
    chunk <> [] ->
    length buffered + length chunk <= max_needed base ->
    feed_async_view (chunk ++ rest) buffered cur base
    = if finished (analyze (buffered ++ chunk) base) then
        (Delivered,
         [(analyze (buffered ++ chunk) base, error_code_default,
           skipn (bytes_consumed (analyze (buffered ++ chunk) base))
                 (buffered ++ chunk))],
         skipn (bytes_consumed (analyze (buffered ++ chunk) base))
               (buffered ++ chunk))
      else if length (buffered ++ chunk) <? max_needed base then
        feed_async_view rest (buffered ++ chunk)
                        (analyze (buffered ++ chunk) base) base
      else (Aborted, [], buffered ++ chunk).
Proof.
  intros Hbase.
  induction chunk as [|b chunk IH]; intros buffered cur rest Hne Hfit;
    [congruence|].
  destruct chunk as [|b' chunk]; [reflexivity|].
  simpl in Hfit.
  assert (Hone : length (buffered ++ [b]) < max_needed base)
    by (rewrite length_app; simpl; lia).
  change ((b :: b' :: chunk) ++ rest) with (b :: ((b' :: chunk) ++ rest)).
  cbn [feed_async_view].
  rewrite (Hbelow _ _ Hbase Hone).
  replace (length (buffered ++ [b]) <? max_needed base) with true
    by (symmetry; now apply Nat.ltb_lt).
  rewrite IH; [|discriminate | rewrite length_app; simpl; lia].
  now rewrite <- app_assoc.
Qed.

(** What one resumption and the rest of the run hand over, in terms of
    the bytes the script still holds. *)
Lemma async_resume_view (base : L) (d : HandshakeDetectStreamType L) (n : nat) :
  finished base = false ->
  data_only (m_next_layer d) = true ->
  max_needed (m_logic d) = max_needed base ->
  (size (commit n (m_buffer d)) < max_needed base ->
   m_logic (digested d n) = base \/
   m_logic (digested d n) = analyze (data (commit n (m_buffer d))) base) ->
  view (async_resume d error_code_default n)
  = if finished (m_logic (digested d n)) then
      (Delivered,
       [(m_logic (digested d n), error_code_default,
         skipn (bytes_consumed (m_logic (digested d n)))
               (data (commit n (m_buffer d))))],
       skipn (bytes_consumed (m_logic (digested d n)))
             (data (commit n (m_buffer d))))
    else if size (commit n (m_buffer d)) <? max_needed base then
      feed_async_view (pending_bytes (m_next_layer d))
                      (data (commit n (m_buffer d)))
                      (m_logic (digested d n)) base
    else (Aborted, [], data (commit n (m_buffer d))).
Proof.
  intros Hbase.
  apply (async_resume_ind
    (fun d ec n r =>
       ec = error_code_default ->
       data_only (m_next_layer d) = true ->
       max_needed (m_logic d) = max_needed base ->
       (size (commit n (m_buffer d)) < max_needed base ->
        m_logic (digested d n) = base \/
        m_logic (digested d n) = analyze (data (commit n (m_buffer d))) base) ->
       view r
       = if finished (m_logic (digested d n)) then
           (Delivered,
            [(m_logic (digested d n), error_code_default,
              skipn (bytes_consumed (m_logic (digested d n)))
                    (data (commit n (m_buffer d))))],
            skipn (bytes_consumed (m_logic (digested d n)))
                  (data (commit n (m_buffer d))))
         else if size (commit n (m_buffer d)) <? max_needed base then
           feed_async_view (pending_bytes (m_next_layer d))
                           (data (commit n (m_buffer d)))
                           (m_logic (digested d n)) base
         else (Aborted, [], data (commit n (m_buffer d)))));
    [| | | |reflexivity].
  - intros d0 ec0 n0 Hbad ->. discriminate.
  - intros d0 ec0 n0 _ Hfin -> _ _ _. rewrite Hfin.
    unfold view. cbn [status final trace].
    rewrite !deliveries_app, digest_events_deliveries, deliver_deliveries.
    cbn [concluded m_logic m_buffer with_buffer app deliveries delivery_of
         conclusion_events].
    rewrite consume_data, digested_buffer. reflexivity.
  - intros d0 ec0 n0 _ Hfin Hge -> _ Hm _. rewrite Hfin.
    replace (size (commit n0 (m_buffer d0)) <? max_needed base) with false
      by (symmetry; apply Nat.ltb_ge; rewrite <- Hm; exact Hge).
    unfold view. cbn [status final trace].
    rewrite deliveries_app, digest_events_deliveries, digested_buffer.
    reflexivity.
  - intros d0 ec0 n0 got ec' t' _ Hfin Hlt Eread Hfit IH -> Honly Hm Hinv.
    rewrite Hfin.
    unfold committed in Hlt, Hfit. cbn [m_buffer with_buffer] in Hlt, Hfit.
    rewrite Hm in Hlt, Hfit.
    replace (size (commit n0 (m_buffer d0)) <? max_needed base) with true
      by (symmetry; apply Nat.ltb_lt; exact Hlt).
    rewrite view_prepend
      by (now rewrite deliveries_app, digest_events_deliveries).
    destruct (rearmed_facts d0 n0) as (Hrl & Hrd & Hrt & Hrs).
    specialize (Hinv Hlt).
    destruct (read_some_data_only _ _ _ _ _ Honly Eread)
      as [(Ht & -> & ->) | (-> & Hpend & Honly')].
    + (* the script is used up: the error is delivered *)
      rewrite (async_resume_failed _ eof _ eq_refl), Ht.
      unfold view. cbn [status final trace feed_async_view pending_bytes].
      rewrite deliver_deliveries, written_logic, written_data, Hrl, Hrd.
      reflexivity.
    + assert (Hfit' : length got <= buffer_size (m_buffer (rearmed d0 n0)))
        by (rewrite Hrs, Hm; exact Hfit).
      pose proof (written_committed_data (rearmed d0 n0) got t' Hfit') as Hw.
      unfold committed in Hw. cbn [m_buffer with_buffer] in Hw.
      rewrite Hrd in Hw.
      assert (Hsz : size (commit (length got)
                            (m_buffer (written (rearmed d0 n0) got t')))
                    = length (data (commit n0 (m_buffer d0)) ++ got))
        by (rewrite <- Hw; reflexivity).
      assert (Hnext : m_logic (digested (written (rearmed d0 n0) got t') (length got))
                      = if 0 <? length got
                        then analyze (data (commit n0 (m_buffer d0)) ++ got) base
                        else m_logic (digested d0 n0)).
      { rewrite digested_logic, written_logic, Hrl, Hw.
        destruct (0 <? length got); [|reflexivity].
        exact (scanned_rescan base _ got _ Hbase Hlt Hinv). }
      rewrite IH; clear IH; try reflexivity; try assumption.
      * rewrite Hnext, written_next_layer, Hw, Hsz, Hpend.
        destruct got as [|b got].
        -- (* nothing arrived: the same read is pending again *)
           cbn [length app]. change (0 <? 0) with false. cbv beta iota.
           rewrite Hfin, app_nil_r.
           replace (length (data (commit n0 (m_buffer d0))) <? max_needed base)
             with true by (symmetry; apply Nat.ltb_lt; exact Hlt).
           reflexivity.
        -- change (0 <? length (b :: got)) with true. cbv beta iota.
           rewrite feed_async_view_chunk;
             [reflexivity | assumption | discriminate |].
           unfold size, data in *. lia.
      * rewrite written_logic, Hrl. exact (scanned_need base _ _ Hbase Hlt Hinv).
      * intros _. rewrite Hnext, Hw.
        destruct got as [|b got].
        -- change (0 <? length (@nil byte)) with false. cbv beta iota.
           now rewrite app_nil_r.
        -- now right.
Qed.

(** A logic that changes nothing before [max_needed] bytes are present
    honours the three clauses. *)
Lemma waiting_logic_rescans :
  verdict_waits_for_need L ->
  rescan_from_start L /\ no_verdict_below_need L /\ need_settled_below_need L.
Proof.
  intros Hwait. repeat split.
  - intros buffered more s _ Hshort. now rewrite (Hwait _ _ Hshort).
  - intros bytes s Hunf Hshort. now rewrite (Hwait _ _ Hshort).
  - intros bytes s _ Hshort. now rewrite (Hwait _ _ Hshort).
Qed.

End RescanChunking.

(** C8 (as amended).  For a logic that scans from offset 0 (what
    [analyze] leaves does not depend on an earlier scan of a prefix too
    short for a verdict), that reaches no verdict before [max_needed]
    bytes are present, whose [max_needed] does not move before that many
    bytes are present, and that has not concluded when detection starts,
    delivering a byte
    sequence as many one-byte reads and delivering it as a single large
    read end the same way in both variants: same status, same verdict and
    leftover bytes handed to the callback, same readable bytes left in the
    arena. *)
Theorem C8_chunking_independence
    {L : Type} `{HandshakeDetectLogic L}
    (d : HandshakeDetectStreamType L) (ec : error_code)
    (buffers bytes : list byte) :
  rescan_from_start L ->
  no_verdict_below_need L ->
  need_settled_below_need L ->
  finished (m_logic d) = false ->
  view (do_handshake (with_next_layer d (one_byte_reads bytes)) ec buffers)
  = view (do_handshake (with_next_layer d (single_read bytes)) ec buffers) /\
  view (async_run (async_do_handshake
                     (with_next_layer d (one_byte_reads bytes)) buffers))
  = view (async_run (async_do_handshake
                       (with_next_layer d (single_read bytes)) buffers)).
Proof.
  intros Hrescan Hbelow Hneed Hunf. split.
  - unfold do_handshake.
    rewrite !(do_handshake_run_view Hneed Hbelow Hrescan _ (m_logic d));
      try assumption;
      try reflexivity; try apply one_byte_reads_data_only;
      try (intros _; now left).
    cbn [m_next_layer m_callback m_buffer m_logic with_buffer with_next_layer].
    now rewrite one_byte_reads_pending, single_read_pending.
  - destruct (async_do_handshake_resume
                (with_next_layer d (one_byte_reads bytes)) buffers)
      as (sb1 & Hcopy1 & _ & ->).
    destruct (async_do_handshake_resume
                (with_next_layer d (single_read bytes)) buffers)
      as (sb2 & Hcopy2 & _ & ->).
    cbn [m_buffer with_next_layer] in Hcopy1, Hcopy2.
    assert (sb2 = sb1) by congruence. subst sb2.
    assert (Hinv : forall t,
               m_logic (digested (with_buffer (with_next_layer d t) sb1)
                                 (length buffers)) = m_logic d \/
               m_logic (digested (with_buffer (with_next_layer d t) sb1)
                                 (length buffers))
               = analyze (data (commit (length buffers) sb1)) (m_logic d)).
    { intros t. rewrite digested_logic.
      cbn [m_buffer m_logic with_buffer with_next_layer].
      destruct (0 <? length buffers); [now right | now left]. }
    rewrite !(async_resume_view Hneed Hbelow Hrescan (m_logic d) _ _ Hunf);
      try reflexivity; try apply one_byte_reads_data_only;
      try (intros _; apply Hinv).
    rewrite !digested_logic.
    cbn [m_next_layer m_callback m_buffer m_logic with_buffer with_next_layer].
    now rewrite one_byte_reads_pending, single_read_pending.
Qed.

Lemma C8_witness :
  view (handshake (H := PrefixLogic) (prefix_detector (one_byte_reads [x47; x45; x54; x20])) eof)
  = view (handshake (H := PrefixLogic) (prefix_detector (single_read [x47; x45; x54; x20])) eof) /\
  view (async_run (H := PrefixLogic) (async_do_handshake (H := PrefixLogic)
                     (prefix_detector (one_byte_reads [x47; x45; x54; x20])) []))
  = view (async_run (H := PrefixLogic) (async_do_handshake (H := PrefixLogic)
                       (prefix_detector (single_read [x47; x45; x54; x20])) [])).
Proof.
  assert (Hrescan : @rescan_from_start (list byte) PrefixLogic).
  { intros buffered more s _ _. reflexivity. }
  assert (Hbelow : @no_verdict_below_need (list byte) PrefixLogic).
  { intros bytes s _ Hshort.
    change (length bytes < 3) in Hshort.
    change ((3 <=? length (firstn 3 bytes)) = false).
    apply Nat.leb_gt. rewrite length_firstn. lia. }
  assert (Hneed : @need_settled_below_need (list byte) PrefixLogic).
  { intros bytes s _ _. reflexivity. }
  exact (C8_chunking_independence (H := PrefixLogic)
           (prefix_detector []) eof [] [x47; x45; x54; x20]
           Hrescan Hbelow Hneed eq_refl).
Defined.

(** The two deliveries of the witness are different runs: three reads of
    one byte each against one read of three bytes, and the same verdict
    with the same leftover at the end of both. *)
Example prefix_logic_chunkings :
  reads (trace (handshake (H := PrefixLogic) (prefix_detector (one_byte_reads [x47; x45; x54; x20])) eof))
  = [EvRead 3 [x47] error_code_default;
     EvRead 2 [x45] error_code_default;
     EvRead 1 [x54] error_code_default] /\
  reads (trace (handshake (H := PrefixLogic) (prefix_detector (single_read [x47; x45; x54; x20])) eof))
  = [EvRead 3 [x47; x45; x54] error_code_default] /\
  deliveries (trace (handshake (H := PrefixLogic) (prefix_detector (one_byte_reads [x47; x45; x54; x20])) eof))
  = [([x47; x45; x54], error_code_default, [x45; x54])] /\
  deliveries (trace (handshake (H := PrefixLogic) (prefix_detector (single_read [x47; x45; x54; x20])) eof))
  = [([x47; x45; x54], error_code_default, [x45; x54])].
Proof. repeat split. Qed.

(** C8 as the specification states it fails.  The dropping logic is an
    idempotent re-scan from offset 0 and reaches no verdict before
    [max_needed] bytes are present (what it does not do is keep
    [max_needed] where it was), yet the two deliveries of [G; E; T] end
    differently in both variants: after the first of the one-byte reads
    the logic asks for a single byte, holds it, and the contract check
    stops the run, where the single read brings all three bytes and the
    verdict. *)
Lemma C8_counterexample :
  @rescan_idempotent (list byte) DropLogic /\
  @rescan_from_start (list byte) DropLogic /\
  @no_verdict_below_need (list byte) DropLogic /\
  ~ @need_settled_below_need (list byte) DropLogic /\
  @finished (list byte) DropLogic (m_logic (drop_detector [])) = false /\
  view (handshake (H := DropLogic) (drop_detector (one_byte_reads [x47; x45; x54])) eof)
  = (Aborted, [], [x47]) /\
  view (handshake (H := DropLogic) (drop_detector (single_read [x47; x45; x54])) eof)
  = (Returned error_code_default,
     [([x47; x45; x54], error_code_default, [x47; x45; x54])],
     [x47; x45; x54]) /\
  view (async_handshake (H := DropLogic) (drop_detector (one_byte_reads [x47; x45; x54])) 7)
  = (Aborted, [], [x47; x45]) /\
  view (async_handshake (H := DropLogic) (drop_detector (single_read [x47; x45; x54])) 7)
  = (Delivered,
     [([x47; x45; x54], error_code_default, [x47; x45; x54])],
     [x47; x45; x54]).
Proof.
  split; [intros bytes s; reflexivity|].
  split; [intros buffered more s _ _; reflexivity|].
  split.
  { intros bytes s _ Hshort.
    change ((3 <=? length bytes) = false). apply Nat.leb_gt.
    destruct s as [|b [|b' s]]; cbn [max_needed DropLogic] in Hshort; lia. }
  split; [|repeat split].
  intros Hsettled.
  specialize (Hsettled [x47] [] eq_refl (le_S _ _ (le_n 2))).
  discriminate Hsettled.
Qed.

(** * Further properties of the detector *)

(** ** [fill] and the caller's initial bytes *)

Lemma transfer_eq (buffers : list byte) (sb : streambuf) :
  transfer buffers sb = mk_streambuf (input_seq sb ++ buffers) [].
Proof.
  unfold transfer, buffer_copy.
  rewrite prepare_buffer_size, Nat.min_id.
  unfold commit, prepare. cbn [input_seq output_seq].
  rewrite firstn_all, firstn_own_length, skipn_own_length.
  rewrite skipn_all2; [reflexivity|].
  rewrite length_firstn, length_app, repeat_length. lia.
Qed.

(** X1. Bytes put in with [fill] and bytes passed as initial buffers are
    the same thing to the blocking variant: filling [a] and then starting
    with initial bytes [b] is starting with [a ++ b], two fills are one
    fill of the concatenation, and [fill] followed by the plain
    [handshake] is the buffered [handshake]. *)
Theorem fill_is_initial_bytes
    {L : Type} `{HandshakeDetectLogic L}
    (d : HandshakeDetectStreamType L) (ec : error_code) (a b : list byte) :
  fill b (fill a d) = fill (a ++ b) d /\
  do_handshake (fill a d) ec b = do_handshake d ec (a ++ b) /\
  handshake (fill a d) ec = handshake_buffered d a ec.
Proof.
  assert (Hfill : fill b (fill a d) = fill (a ++ b) d).
  { unfold fill. cbn [m_buffer with_buffer]. rewrite !transfer_eq.
    cbn [input_seq]. unfold with_buffer. cbn. now rewrite app_assoc. }
  assert (Hdo : forall c, do_handshake (fill a d) ec c = do_handshake d ec (a ++ c)).
  { intros c. unfold do_handshake, fill. cbn [m_buffer with_buffer].
    rewrite !transfer_eq. cbn [input_seq]. unfold with_buffer. cbn.
    now rewrite app_assoc. }
  split; [exact Hfill|]. split; [apply Hdo|].
  unfold handshake, handshake_buffered. rewrite Hdo. now rewrite app_nil_r.
Qed.

(** ** How runs end *)

Section Endings.

Context {L : Type} `{HandshakeDetectLogic L}.

Lemma blocking_ending_prepend (cb : Callback L) (evs : list (Event L)) (r : Run L) :
  deliveries evs = [] ->
  blocking_ending cb r -> blocking_ending cb (prepend evs r).
Proof.
  intros Hnone [(pre & l & e & lo & Htr & Hdel & He & Hfin & Hst)
               |[(pre & rq & e & Htr & Hdel & He & Hst)
                |(pre & Htr & Hdel & Hst)]].
  - left. exists (evs ++ pre), l, e, lo.
    rewrite trace_prepend, status_prepend, Htr, deliveries_app, Hnone, Hdel, app_assoc.
    repeat split; assumption.
  - right. left. exists (evs ++ pre), rq, e.
    rewrite trace_prepend, status_prepend, deliveries_app, Hnone, Hdel, Htr, app_assoc.
    repeat split; assumption.
  - right. right. exists (evs ++ pre).
    rewrite trace_prepend, status_prepend, deliveries_app, Hnone, Hdel, Htr, app_assoc.
    repeat split; assumption.
Qed.

Lemma do_handshake_run_ending (d : HandshakeDetectStreamType L) ec :
  ec_not ec = true ->
  blocking_ending (m_callback d) (do_handshake_run d ec).
Proof.
  apply (do_handshake_run_ind
           (fun d ec r => ec_not ec = true -> blocking_ending (m_callback d) r)).
  - intros d0 ec0 st d' evs Hbody Hec.
    invert_pass Hbody; try read_facts.
    + congruence.
    + left.
      exists (EvAnalyze (data (m_buffer d0)) :: conclusion_events (analysed d0)),
             (m_logic (analysed d0)), ec0,
             (data (m_buffer (concluded (analysed d0)))).
      repeat split; assumption.
    + right. right. exists [EvAnalyze (data (m_buffer d0))]. repeat split.
    + right. left.
      match goal with Hbad : ec_not _ = false |- _ =>
        pose proof (read_some_failed _ _ _ _ _ Hsome Hbad) as ->;
        exists [], (max_needed (m_logic d0) - size (m_buffer d0)), ec1;
        repeat split; exact Hbad end.
    + left.
      exists (EvRead (max_needed (m_logic d0) - size (m_buffer d0)) got ec1
                :: EvAnalyze (data (m_buffer d1)) :: conclusion_events (analysed d1)),
             (m_logic (analysed d1)), ec1,
             (data (m_buffer (concluded (analysed d1)))).
      repeat split; try assumption.
      unfold on_detect_result. cbn [m_callback concluded analysed with_buffer with_logic].
      now rewrite Hcb.
  - intros d0 ec0 d' ec' evs Hbody IH Hec.
    invert_pass Hbody. read_facts.
    apply blocking_ending_prepend; [reflexivity|].
    cbn [m_callback analysed with_logic] in IH. rewrite Hcb in IH.
    apply IH. assumption.
Qed.

Lemma deliver_shape (d : HandshakeDetectStreamType L) ec :
  exists site b x,
    deliver d ec = [EvBassert site b; x] /\
    delivery_of x = Some (m_logic d, ec, data (m_buffer d)).
Proof.
  unfold deliver.
  destruct (negb (TransferCall_isNull (m_origBufferedHandler d)));
    eexists _, _, _; split; reflexivity.
Qed.

Lemma async_ending_prepend (evs : list (Event L)) (r : Run L) :
  deliveries evs = [] -> async_ending r -> async_ending (prepend evs r).
Proof.
  intros Hnone [(pre & x & l & e & lo & Htr & Hx & Hdel & Hfin & Hst)
               |(pre & Htr & Hdel & Hst)].
  - left. exists (evs ++ pre), x, l, e, lo.
    rewrite trace_prepend, status_prepend, Htr, deliveries_app, Hnone, Hdel, app_assoc.
    repeat split; assumption.
  - right. exists (evs ++ pre).
    rewrite trace_prepend, status_prepend, deliveries_app, Hnone, Hdel, Htr, app_assoc.
    repeat split; assumption.
Qed.

Lemma async_resume_ending (d : HandshakeDetectStreamType L) ec n :
  async_ending (async_resume d ec n).
Proof.
  apply (async_resume_ind (fun _ _ _ r => async_ending r)).
  - intros d0 ec0 n0 Hbad. left.
    destruct (deliver_shape d0 ec0) as (site & b & x & Hd & Hx).
    exists [EvBassert site b], x, (m_logic d0), ec0, (data (m_buffer d0)).
    cbn [trace status]. rewrite Hd. repeat split; try assumption. congruence.
  - intros d0 ec0 n0 Hok Hfin. left.
    destruct (deliver_shape (concluded (digested d0 n0)) ec0)
      as (site & b & x & Hd & Hx).
    exists (digest_events d0 n0 ++ conclusion_events (digested d0 n0)
              ++ [EvBassert site b]),
           x, (m_logic (concluded (digested d0 n0))), ec0,
           (data (m_buffer (concluded (digested d0 n0)))).
    cbn [trace status]. rewrite Hd.
    repeat split; try assumption; try (intros _; exact Hfin).
    + now rewrite <- !app_assoc.
    + now rewrite !deliveries_app, digest_events_deliveries.
  - intros d0 ec0 n0 Hok Hfin Hge. right.
    exists (digest_events d0 n0). cbn [trace status]. repeat split.
    now rewrite deliveries_app, digest_events_deliveries.
  - intros d0 ec0 n0 got ec' t' _ _ _ _ _ IH.
    apply async_ending_prepend; [|exact IH].
    now rewrite deliveries_app, digest_events_deliveries.
Qed.

End Endings.

(** X2. A blocking detection ends in exactly one of three ways: with a
    single [on_detect] call as its last act, made with a success status
    and a finished logic, whose result is returned; with a failed read as
    its last act, no callback call, and that read's error returned; or on
    the failed contract check, with no callback call.  In particular a
    success status is never returned unless the callback produced it. *)
Theorem blocking_run_ends_one_of_three_ways
    {L : Type} `{HandshakeDetectLogic L}
    (d : HandshakeDetectStreamType L) (ec : error_code) (buffers : list byte) :
  blocking_ending (m_callback d) (do_handshake d ec buffers).
Proof.
  unfold do_handshake.
  exact (do_handshake_run_ending
           (with_buffer d (transfer buffers (m_buffer d)))
           error_code_default eq_refl).
Qed.

(** X3. A completion-driven detection started through either
    [async_handshake] ends in one of two ways: with a single
    [on_async_detect] call as its last act, which carries a finished logic
    whenever it carries no error; or on the failed contract check, with no
    callback call at all. *)
Theorem async_run_ends_one_of_two_ways
    {L : Type} `{HandshakeDetectLogic L}
    (d : HandshakeDetectStreamType L) (buffers : list byte) (handler : nat) :
  async_ending (async_handshake d handler) /\
  async_ending (async_handshake_buffered d buffers handler).
Proof.
  split.
  - unfold async_handshake.
    destruct (async_do_handshake_resume (with_origHandler d (ErrorCall_of handler)) [])
      as (sb & _ & _ & ->).
    apply async_ending_prepend; [reflexivity | apply async_resume_ending].
  - unfold async_handshake_buffered.
    destruct (async_do_handshake_resume
                (with_origBufferedHandler d (TransferCall_of handler)) buffers)
      as (sb & _ & _ & ->).
    apply async_ending_prepend; [reflexivity | apply async_resume_ending].
Qed.

(** ** What [analyze] is shown *)

Section AnalyzeInput.

Context {L : Type} `{HandshakeDetectLogic L}.

Lemma sees_everything_app (a : list (Event L)) :
  forall buffered c,
    sees_everything buffered (a ++ c) <->
    sees_everything buffered a /\ sees_everything (buffered ++ bytes_read a) c.
Proof.
  induction a as [|e a IH]; intros buffered c.
  - simpl. rewrite app_nil_r. tauto.
  - destruct e; cbn [app sees_everything bytes_read];
      rewrite ?IH, ?app_assoc; tauto.
Qed.

Lemma deliver_sees_everything (d : HandshakeDetectStreamType L) ec buffered :
  sees_everything buffered (deliver d ec).
Proof.
  unfold deliver.
  destruct (negb (TransferCall_isNull (m_origBufferedHandler d))); simpl; exact I.
Qed.

Lemma digest_events_sees_everything (d : HandshakeDetectStreamType L) n :
  sees_everything (data (commit n (m_buffer d))) (digest_events d n).
Proof.
  unfold digest_events. destruct (0 <? n); simpl; [split; [reflexivity|]|]; exact I.
Qed.

Lemma do_handshake_run_sees_everything (d : HandshakeDetectStreamType L) ec :
  sees_everything (data (m_buffer d)) (trace (do_handshake_run d ec)).
Proof.
  apply (do_handshake_run_ind
           (fun d _ r => sees_everything (data (m_buffer d)) (trace r))).
  - intros d0 ec0 st d' evs Hbody.
    invert_pass Hbody; try read_facts; cbn [trace sees_everything];
      unfold on_detect_event; cbn [sees_everything]; auto.
  - intros d0 ec0 d' ec' evs Hbody IH.
    invert_pass Hbody. read_facts.
    rewrite trace_prepend. apply sees_everything_app. split.
    + cbn [sees_everything]. auto.
    + cbn [bytes_read]. rewrite app_nil_r.
      cbn [m_buffer analysed with_logic] in IH. now rewrite Hdata in IH.
Qed.

Lemma async_resume_sees_everything (d : HandshakeDetectStreamType L) ec n :
  sees_everything (data (commit n (m_buffer d))) (trace (async_resume d ec n)).
Proof.
  apply (async_resume_ind
           (fun d _ n r => sees_everything (data (commit n (m_buffer d))) (trace r))).
  - intros d0 ec0 n0 _. apply deliver_sees_everything.
  - intros d0 ec0 n0 _ _. cbn [trace].
    apply sees_everything_app. split; [apply digest_events_sees_everything|].
    apply sees_everything_app. split; [simpl; exact I|].
    apply deliver_sees_everything.
  - intros d0 ec0 n0 _ _ _. cbn [trace].
    apply sees_everything_app. split; [apply digest_events_sees_everything|].
    simpl; exact I.
  - intros d0 ec0 n0 got ec' t' _ _ _ _ Hfit IH.
    rewrite trace_prepend. apply sees_everything_app. split.
    + apply sees_everything_app. split; [apply digest_events_sees_everything|].
      simpl; exact I.
    + rewrite bytes_read_app, digest_events_bytes_read.
      cbn [app bytes_read]. rewrite app_nil_r.
      destruct (rearmed_facts d0 n0) as (_ & Hrd & _ & Hrs).
      assert (Hfit' : length got <= buffer_size (m_buffer (rearmed d0 n0)))
        by (rewrite Hrs; exact Hfit).
      pose proof (written_committed_data (rearmed d0 n0) got t' Hfit') as Hw.
      unfold committed in Hw. cbn [m_buffer with_buffer] in Hw.
      rewrite Hw, Hrd in IH. exact IH.
Qed.

End AnalyzeInput.

(** X4. Every [analyze] call of either variant is given the whole
    readable region: the bytes the arena held at the start, the caller's
    initial bytes, and every byte the transport has returned up to then,
    in order.  Nothing is consumed before the verdict, so the logic always
    re-scans from the first byte. *)
Theorem analyze_is_given_all_buffered_bytes
    {L : Type} `{HandshakeDetectLogic L}
    (d : HandshakeDetectStreamType L) (ec : error_code)
    (buffers : list byte) (handler : nat) :
  sees_everything (data (m_buffer d) ++ buffers)
                  (trace (do_handshake d ec buffers)) /\
  sees_everything (data (m_buffer d))
                  (trace (async_handshake d handler)) /\
  sees_everything (data (m_buffer d) ++ buffers)
                  (trace (async_handshake_buffered d buffers handler)).
Proof.
  repeat split.
  - unfold do_handshake.
    pose proof (do_handshake_run_sees_everything
                  (with_buffer d (transfer buffers (m_buffer d)))
                  error_code_default) as Hs.
    cbn [m_buffer with_buffer] in Hs. now rewrite transfer_data in Hs.
  - unfold async_handshake.
    destruct (async_do_handshake_resume (with_origHandler d (ErrorCall_of handler)) [])
      as (sb & _ & Hdata & ->).
    rewrite trace_prepend. cbn [app sees_everything].
    pose proof (async_resume_sees_everything
                  (with_buffer (with_origHandler d (ErrorCall_of handler)) sb)
                  error_code_default (length (@nil byte))) as Hs.
    cbn [m_buffer with_buffer with_origHandler] in Hs, Hdata.
    rewrite Hdata, app_nil_r in Hs. exact Hs.
  - unfold async_handshake_buffered.
    destruct (async_do_handshake_resume
                (with_origBufferedHandler d (TransferCall_of handler)) buffers)
      as (sb & _ & Hdata & ->).
    rewrite trace_prepend. cbn [app sees_everything].
    pose proof (async_resume_sees_everything
                  (with_buffer (with_origBufferedHandler d (TransferCall_of handler)) sb)
                  error_code_default (length buffers)) as Hs.
    cbn [m_buffer with_buffer with_origBufferedHandler] in Hs, Hdata.
    rewrite Hdata in Hs. exact Hs.
Qed.

(** ** How much is read *)

Section ReadBudget.

Context {L : Type} `{HandshakeDetectLogic L}.

Hypothesis Hconst : constant_need L.

Lemma do_handshake_run_budget (d : HandshakeDetectStreamType L) ec :
  length (bytes_read (trace (do_handshake_run d ec)))
  <= max_needed (m_logic d) - size (m_buffer d).
Proof.
  apply (do_handshake_run_ind
           (fun d _ r =>
              length (bytes_read (trace r))
              <= max_needed (m_logic d) - size (m_buffer d))).
  - intros d0 ec0 st d' evs Hbody.
    invert_pass Hbody; try read_facts; cbn [trace bytes_read];
      unfold on_detect_event; cbn [bytes_read length];
      rewrite ?app_nil_r; lia.
  - intros d0 ec0 d' ec' evs Hbody IH.
    invert_pass Hbody. read_facts.
    rewrite trace_prepend. cbn [app bytes_read]. rewrite length_app.
    cbn [m_logic m_buffer analysed with_logic] in IH.
    rewrite Hconst, Hlogic in IH.
    assert (Hsz : size (m_buffer d1) = size (m_buffer d0) + length got).
    { unfold size. unfold data in Hdata. now rewrite Hdata, length_app. }
    lia.
Qed.

Lemma digested_need (d : HandshakeDetectStreamType L) n :
  max_needed (m_logic (digested d n)) = max_needed (m_logic d).
Proof.
  rewrite digested_logic. destruct (0 <? n); [apply Hconst | reflexivity].
Qed.

Lemma async_resume_budget (d : HandshakeDetectStreamType L) ec n :
  length (bytes_read (trace (async_resume d ec n)))
  <= if ec_not ec
     then max_needed (m_logic d) - size (commit n (m_buffer d))
     else 0.
Proof.
  apply (async_resume_ind
           (fun d ec n r =>
              length (bytes_read (trace r))
              <= if ec_not ec
                 then max_needed (m_logic d) - size (commit n (m_buffer d))
                 else 0)).
  - intros d0 ec0 n0 Hbad. cbn [trace]. rewrite Hbad, deliver_bytes_read.
    simpl. lia.
  - intros d0 ec0 n0 Hok _. cbn [trace].
    rewrite !bytes_read_app, digest_events_bytes_read, deliver_bytes_read.
    simpl. lia.
  - intros d0 ec0 n0 Hok _ _. cbn [trace].
    rewrite bytes_read_app, digest_events_bytes_read. simpl. lia.
  - intros d0 ec0 n0 got ec' t' Hok Hfin Hlt Eread Hfit IH.
    rewrite trace_prepend, !bytes_read_app, digest_events_bytes_read, Hok.
    cbn [app bytes_read]. rewrite app_nil_r, length_app.
    destruct (rearmed_facts d0 n0) as (Hrl & Hrd & _ & Hrs).
    assert (Hfit' : length got <= buffer_size (m_buffer (rearmed d0 n0)))
      by (rewrite Hrs; exact Hfit).
    pose proof (written_committed_data (rearmed d0 n0) got t' Hfit') as Hw.
    unfold committed in Hw. cbn [m_buffer with_buffer] in Hw.
    assert (Hsz : size (commit (length got) (m_buffer (written (rearmed d0 n0) got t')))
                  = size (commit n0 (m_buffer d0)) + length got).
    { unfold size.
      change (input_seq (commit (length got) (m_buffer (written (rearmed d0 n0) got t'))))
        with (data (commit (length got) (m_buffer (written (rearmed d0 n0) got t')))).
      rewrite Hw, Hrd, length_app. reflexivity. }
    rewrite written_logic, Hrl, digested_need, Hsz in IH.
    unfold committed in Hfit. cbn [m_buffer with_buffer] in Hfit.
    destruct (ec_not ec'); lia.
Qed.

End ReadBudget.

(** X5. For a logic whose [max_needed] does not move when it analyzes,
    neither variant ever takes from the transport more than [max_needed]
    less what the arena and the caller's initial bytes already supplied:
    over the whole run, not just per read.  With the need already covered
    nothing is read at all. *)
Theorem reads_stay_within_the_need
    {L : Type} `{HandshakeDetectLogic L}
    (d : HandshakeDetectStreamType L) (ec : error_code)
    (buffers : list byte) (handler : nat) :
  constant_need L ->
  length (bytes_read (trace (do_handshake d ec buffers)))
  <= max_needed (m_logic d) - (size (m_buffer d) + length buffers) /\
  length (bytes_read (trace (async_handshake d handler)))
  <= max_needed (m_logic d) - size (m_buffer d) /\
  length (bytes_read (trace (async_handshake_buffered d buffers handler)))
  <= max_needed (m_logic d) - (size (m_buffer d) + length buffers).
Proof.
  intros Hconst.
  repeat split.
  - unfold do_handshake.
    pose proof (do_handshake_run_budget Hconst
                  (with_buffer d (transfer buffers (m_buffer d)))
                  error_code_default) as Hb.
    cbn [m_logic m_buffer with_buffer] in Hb.
    replace (size (transfer buffers (m_buffer d)))
      with (size (m_buffer d) + length buffers) in Hb; [exact Hb|].
    unfold size. rewrite transfer_eq. cbn [input_seq]. now rewrite length_app.
  - unfold async_handshake.
    destruct (async_do_handshake_resume (with_origHandler d (ErrorCall_of handler)) [])
      as (sb & _ & Hdata & ->).
    rewrite trace_prepend. cbn [app bytes_read].
    pose proof (async_resume_budget Hconst
                  (with_buffer (with_origHandler d (ErrorCall_of handler)) sb)
                  error_code_default (length (@nil byte))) as Hb.
    cbn [m_logic m_buffer with_buffer with_origHandler ec_not error_code_default
         ec_value Z.eqb] in Hb, Hdata.
    replace (size (commit (length (@nil byte)) sb)) with (size (m_buffer d)) in Hb;
      [exact Hb|].
    unfold size.
    change (input_seq (commit (length (@nil byte)) sb))
      with (data (commit (length (@nil byte)) sb)).
    now rewrite Hdata, app_nil_r.
  - unfold async_handshake_buffered.
    destruct (async_do_handshake_resume
                (with_origBufferedHandler d (TransferCall_of handler)) buffers)
      as (sb & _ & Hdata & ->).
    rewrite trace_prepend. cbn [app bytes_read].
    pose proof (async_resume_budget Hconst
                  (with_buffer (with_origBufferedHandler d (TransferCall_of handler)) sb)
                  error_code_default (length buffers)) as Hb.
    cbn [m_logic m_buffer with_buffer with_origBufferedHandler ec_not
         error_code_default ec_value Z.eqb] in Hb, Hdata.
    replace (size (commit (length buffers) sb))
      with (size (m_buffer d) + length buffers) in Hb; [exact Hb|].
    unfold size.
    change (input_seq (commit (length buffers) sb))
      with (data (commit (length buffers) sb)).
    now rewrite Hdata, length_app.
Qed.

Lemma X5_witness :
  length (bytes_read (trace (handshake (construct (L := PeekVerdict) keep_ec
                                                  [Data [x16; x03; x01]]) eof)))
  <= 1 - (0 + 0).
Proof.
  exact (proj1 (reads_stay_within_the_need
                  (construct (L := PeekVerdict) keep_ec [Data [x16; x03; x01]])
                  eof [] 0 (fun _ _ => eq_refl))).
Defined.

(** ** Chunking in general *)

(** X6. For a logic whose verdict cannot change before [max_needed] bytes
    are present and which has not concluded at the start, how a
    failure-free transport cuts its bytes into reads does not matter: any
    two scripts holding the same bytes (in segments of any sizes, empty
    ones included) end both variants the same way. *)
Theorem any_two_chunkings_end_alike
    {L : Type} `{HandshakeDetectLogic L}
    (d : HandshakeDetectStreamType L) (ec : error_code)
    (buffers : list byte) (t1 t2 : Stream) :
  verdict_waits_for_need L ->
  finished (m_logic d) = false ->
  data_only t1 = true ->
  data_only t2 = true ->
  pending_bytes t1 = pending_bytes t2 ->
  observe (do_handshake (with_next_layer d t1) ec buffers)
  = observe (do_handshake (with_next_layer d t2) ec buffers) /\
  observe (async_run (async_do_handshake (with_next_layer d t1) buffers))
  = observe (async_run (async_do_handshake (with_next_layer d t2) buffers)).
Proof.
  intros Hwait Hunf Honly1 Honly2 Hsame. split.
  - unfold do_handshake.
    rewrite !(do_handshake_run_feed Hwait); try assumption.
    cbn [m_next_layer m_callback m_buffer m_logic with_buffer with_next_layer].
    now rewrite Hsame.
  - destruct (async_do_handshake_resume (with_next_layer d t1) buffers)
      as (sb1 & Hcopy1 & _ & ->).
    destruct (async_do_handshake_resume (with_next_layer d t2) buffers)
      as (sb2 & Hcopy2 & _ & ->).
    cbn [m_buffer with_next_layer] in Hcopy1, Hcopy2.
    assert (sb2 = sb1) by congruence. subst sb2.
    rewrite !(async_resume_feed Hwait); try assumption.
    rewrite !digested_logic.
    cbn [m_next_layer m_callback m_buffer m_logic with_buffer with_next_layer].
    now rewrite Hsame.
Qed.

Lemma X6_witness :
  observe (handshake (construct (L := PeekVerdict) keep_ec
                                [Data []; Data [x47]; Data [x45; x54]]) eof)
  = observe (handshake (construct (L := PeekVerdict) keep_ec
                                  [Data [x47; x45]; Data []; Data [x54]]) eof).
Proof.
  assert (Hwait : verdict_waits_for_need PeekVerdict).
  { intros bytes s Hshort. destruct bytes; [reflexivity | simpl in Hshort; lia]. }
  exact (proj1 (any_two_chunkings_end_alike
                  (construct (L := PeekVerdict) keep_ec []) eof []
                  [Data []; Data [x47]; Data [x45; x54]]
                  [Data [x47; x45]; Data []; Data [x54]]
                  Hwait eq_refl eq_refl eq_refl eq_refl)).
Defined.

(** ** End to end on a failure-free transport *)

Section EndToEnd.

Context {L : Type} `{HandshakeDetectLogic L}.

Hypothesis Hwait : verdict_waits_for_need L.

Lemma feed_blocking_starved (cb : Callback L) (rest : list byte) :
  forall buffered s,
    finished s = false ->
    length buffered + length rest < max_needed s ->
    feed_blocking cb rest buffered s
    = mk_Outcome (Returned eof) [] s (buffered ++ rest).
Proof.
  induction rest as [|b rest IH]; intros buffered s Hunf Hshort;
    rewrite feed_blocking_unfold;
    (replace (max_needed s <=? length buffered) with false
      by (symmetry; apply Nat.leb_gt; simpl in Hshort; lia)).
  - now rewrite app_nil_r.
  - simpl in Hshort.
    assert (Hone : length (buffered ++ [b]) < max_needed s)
      by (rewrite length_app; simpl; lia).
    rewrite (Hwait _ _ Hone), Hunf, IH; try assumption.
    + now rewrite <- app_assoc.
    + rewrite length_app; simpl; lia.
Qed.

Lemma feed_async_starved (rest : list byte) :
  forall buffered s,
    finished s = false ->
    length buffered + length rest < max_needed s ->
    feed_async rest buffered s
    = mk_Outcome Delivered [(s, eof, buffered ++ rest)] s (buffered ++ rest).
Proof.
  induction rest as [|b rest IH]; intros buffered s Hunf Hshort.
  - simpl. now rewrite app_nil_r.
  - simpl in Hshort.
    assert (Hone : length (buffered ++ [b]) < max_needed s)
      by (rewrite length_app; simpl; lia).
    cbn [feed_async]. rewrite (Hwait _ _ Hone), Hunf.
    replace (length (buffered ++ [b]) <? max_needed s) with true
      by (symmetry; now apply Nat.ltb_lt).
    rewrite IH; try assumption.
    + now rewrite <- app_assoc.
    + rewrite length_app; simpl; lia.
Qed.

Lemma feed_blocking_enough (cb : Callback L) (rest buffered : list byte) (s : L) :
  concludes_at_need L ->
  finished s = false ->
  max_needed s - length buffered <= length rest ->
  feed_blocking cb rest buffered s
  = verdict_outcome cb
      (buffered ++ firstn (max_needed s - length buffered) rest)
      (analyze (buffered ++ firstn (max_needed s - length buffered) rest) s).
Proof.
  intros Hconcl Hunf Henough.
  destruct (max_needed s <=? length buffered) eqn:Hmet.
  - apply Nat.leb_le in Hmet.
    replace (max_needed s - length buffered) with 0 by lia.
    cbn [firstn]. rewrite app_nil_r, feed_blocking_unfold.
    replace (max_needed s <=? length buffered) with true
      by (symmetry; now apply Nat.leb_le).
    now rewrite (Hconcl buffered s Hmet).
  - apply Nat.leb_gt in Hmet.
    rewrite <- (firstn_skipn (max_needed s - length buffered) rest) at 1.
    assert (Hlen : length (firstn (max_needed s - length buffered) rest)
                   = max_needed s - length buffered)
      by (rewrite length_firstn; lia).
    rewrite (feed_blocking_chunk Hwait); try assumption; [|lia].
    replace (length (buffered ++ firstn (max_needed s - length buffered) rest)
             <? max_needed s) with false
      by (symmetry; apply Nat.ltb_ge; rewrite length_app; lia).
    rewrite Hconcl; [reflexivity|]. rewrite length_app. lia.
Qed.

End EndToEnd.

(** X7. On a failure-free transport that holds enough bytes, and for a
    logic that keeps its verdict until [max_needed] bytes are present and
    concludes once they are, the blocking variant delivers exactly
    [analyze] of the first [max_needed] buffered bytes: the arena's and the
    caller's bytes followed by just the missing [needed - available] bytes
    of the transport.  The leftover is those bytes less the consumed
    prefix; nothing beyond the need is pulled in. *)
Theorem blocking_verdict_is_analyze_of_first_needed_bytes
    {L : Type} `{HandshakeDetectLogic L}
    (d : HandshakeDetectStreamType L) (ec : error_code) (buffers : list byte) :
  verdict_waits_for_need L ->
  concludes_at_need L ->
  finished (m_logic d) = false ->
  data_only (m_next_layer d) = true ->
  max_needed (m_logic d) - length (data (m_buffer d) ++ buffers)
  <= length (pending_bytes (m_next_layer d)) ->
  observe (do_handshake d ec buffers)
  = verdict_outcome (m_callback d)
      ((data (m_buffer d) ++ buffers)
         ++ firstn (max_needed (m_logic d) - length (data (m_buffer d) ++ buffers))
                   (pending_bytes (m_next_layer d)))
      (analyze
         ((data (m_buffer d) ++ buffers)
            ++ firstn (max_needed (m_logic d) - length (data (m_buffer d) ++ buffers))
                      (pending_bytes (m_next_layer d)))
         (m_logic d)).
Proof.
  intros Hwait Hconcl Hunf Honly Henough. unfold do_handshake.
  rewrite (do_handshake_run_feed Hwait); try assumption.
  cbn [m_next_layer m_callback m_buffer m_logic with_buffer].
  rewrite transfer_data.
  now apply feed_blocking_enough.
Qed.

Lemma X7_witness :
  observe (handshake (construct (L := PeekVerdict) keep_ec [Data [x16; x03; x01]])
                     eof)
  = verdict_outcome keep_ec [x16] Encrypted.
Proof.
  assert (Hwait : verdict_waits_for_need PeekVerdict).
  { intros bytes s Hshort. destruct bytes; [reflexivity | simpl in Hshort; lia]. }
  assert (Hconcl : concludes_at_need PeekVerdict).
  { intros bytes s Hlong. destruct bytes as [|b bytes];
      [simpl in Hlong; lia | simpl; now destruct (Byte.eqb b x16)]. }
  exact (blocking_verdict_is_analyze_of_first_needed_bytes
           (construct (L := PeekVerdict) keep_ec [Data [x16; x03; x01]])
           eof [] Hwait Hconcl eq_refl eq_refl (le_S _ _ (le_S _ _ (le_n 1)))).
Defined.

(** X8. On a failure-free transport that runs dry before [max_needed]
    bytes are there, a logic that keeps its verdict until then is never
    concluded: the blocking variant returns end-of-stream without calling
    [on_detect], the completion-driven variant hands end-of-stream to
    [on_async_detect] with every byte received, and in both the arena
    keeps all the bytes and the logic is as it was. *)
Theorem short_stream_ends_in_end_of_stream
    {L : Type} `{HandshakeDetectLogic L}
    (d : HandshakeDetectStreamType L) (ec : error_code) (buffers : list byte) :
  verdict_waits_for_need L ->
  finished (m_logic d) = false ->
  data_only (m_next_layer d) = true ->
  length (data (m_buffer d) ++ buffers)
    + length (pending_bytes (m_next_layer d)) < max_needed (m_logic d) ->
  observe (do_handshake d ec buffers)
  = mk_Outcome (Returned eof) [] (m_logic d)
      ((data (m_buffer d) ++ buffers) ++ pending_bytes (m_next_layer d)) /\
  observe (async_run (async_do_handshake d buffers))
  = mk_Outcome Delivered
      [(m_logic d, eof,
        (data (m_buffer d) ++ buffers) ++ pending_bytes (m_next_layer d))]
      (m_logic d)
      ((data (m_buffer d) ++ buffers) ++ pending_bytes (m_next_layer d)).
Proof.
  intros Hwait Hunf Honly Hshort. split.
  - unfold do_handshake.
    rewrite (do_handshake_run_feed Hwait); try assumption.
    cbn [m_next_layer m_callback m_buffer m_logic with_buffer].
    rewrite transfer_data.
    now apply feed_blocking_starved.
  - destruct (async_do_handshake_resume d buffers) as (sb & _ & Hdata & ->).
    rewrite (async_resume_feed Hwait); [|assumption].
    rewrite digested_logic.
    cbn [m_next_layer m_buffer m_logic with_buffer].
    rewrite Hdata.
    assert (Hbelow : length (data (m_buffer d) ++ buffers) < max_needed (m_logic d))
      by lia.
    assert (Hsame : (if 0 <? length buffers
                     then analyze (data (m_buffer d) ++ buffers) (m_logic d)
                     else m_logic d) = m_logic d).
    { destruct (0 <? length buffers); [now apply Hwait | reflexivity]. }
    rewrite Hsame, Hunf.
    replace (size (commit (length buffers) sb) <? max_needed (m_logic d)) with true.
    + now apply feed_async_starved.
    + symmetry. apply Nat.ltb_lt. unfold size.
      change (input_seq (commit (length buffers) sb))
        with (data (commit (length buffers) sb)).
      now rewrite Hdata.
Qed.

Lemma X8_witness :
  observe (handshake (construct (L := PeekVerdict) keep_ec [Data []]) eof)
  = mk_Outcome (Returned eof) [] Undecided [].
Proof.
  assert (Hwait : verdict_waits_for_need PeekVerdict).
  { intros bytes s Hshort. destruct bytes; [reflexivity | simpl in Hshort; lia]. }
  exact (proj1 (short_stream_ends_in_end_of_stream
                  (construct (L := PeekVerdict) keep_ec [Data []])
                  eof [] Hwait eq_refl eq_refl (le_n 1))).
Defined.

(** ** When the two variants agree *)

Section Agreement.

Context {L : Type} `{HandshakeDetectLogic L}.

Hypothesis Hwait : verdict_waits_for_need L.
Hypothesis Hidem : rescan_idempotent L.
Hypothesis Hconst : constant_need L.

(** With a read pending and the arena below the need, the two loops fed
    the same bytes reach the same verdict or stop on the same check. *)
Lemma feeds_agree (cb : Callback L) (rest : list byte) :
  forall buffered s,
    finished s = false ->
    length buffered < max_needed s ->
    o_verdicts (feed_blocking cb rest buffered s)
    = o_verdicts (feed_async rest buffered s) /\
    (o_status (feed_blocking cb rest buffered s) = Aborted <->
     o_status (feed_async rest buffered s) = Aborted).
Proof.
  induction rest as [|b rest IH]; intros buffered s Hunf Hlt;
    rewrite feed_blocking_unfold;
    (replace (max_needed s <=? length buffered) with false
      by (symmetry; now apply Nat.leb_gt)).
  - cbn. split; [reflexivity|]. split; discriminate.
  - cbn [feed_async].
    destruct (finished (analyze (buffered ++ [b]) s)) eqn:Hfin.
    + cbn. split; [reflexivity|]. split; discriminate.
    + destruct (length (buffered ++ [b]) <? max_needed s) eqn:Hone.
      * apply Nat.ltb_lt in Hone.
        rewrite (Hwait _ _ Hone). now apply IH.
      * apply Nat.ltb_ge in Hone.
        rewrite feed_blocking_unfold, Hconst.
        replace (max_needed s <=? length (buffered ++ [b])) with true
          by (symmetry; now apply Nat.leb_le).
        rewrite Hidem, Hfin. cbn. split; [reflexivity|]. tauto.
Qed.

Lemma verdicts_observe (r : Run L) : verdicts r = o_verdicts (observe r).
Proof. reflexivity. Qed.

Lemma status_observe (r : Run L) : status r = o_status (observe r).
Proof. reflexivity. Qed.

Lemma variants_agree_core (d : HandshakeDetectStreamType L) ec buffers :
  finished (m_logic d) = false ->
  data_only (m_next_layer d) = true ->
  buffers <> [] \/ size (m_buffer d) < max_needed (m_logic d) ->
  verdicts (do_handshake d ec buffers)
  = verdicts (async_run (async_do_handshake d buffers)) /\
  (status (do_handshake d ec buffers) = Aborted <->
   status (async_run (async_do_handshake d buffers)) = Aborted).
Proof.
  intros Hunf Honly Hstart.
  rewrite !verdicts_observe, !status_observe.
  unfold do_handshake.
  rewrite (do_handshake_run_feed Hwait); try assumption.
  destruct (async_do_handshake_resume d buffers) as (sb & _ & Hdata & ->).
  rewrite (async_resume_feed Hwait); [|assumption].
  rewrite digested_logic.
  cbn [m_next_layer m_callback m_buffer m_logic with_buffer].
  rewrite transfer_data, Hdata.
  assert (Hsz : size (commit (length buffers) sb)
                = length (data (m_buffer d) ++ buffers)).
  { unfold size.
    change (input_seq (commit (length buffers) sb))
      with (data (commit (length buffers) sb)).
    now rewrite Hdata. }
  rewrite Hsz.
  destruct (length (data (m_buffer d) ++ buffers) <? max_needed (m_logic d)) eqn:Hbelow.
  - (* below the need: the bootstrap analysis, if any, changes nothing *)
    apply Nat.ltb_lt in Hbelow.
    replace (if 0 <? length buffers
             then analyze (data (m_buffer d) ++ buffers) (m_logic d)
             else m_logic d) with (m_logic d)
      by (destruct (0 <? length buffers);
          [symmetry; now apply Hwait | reflexivity]).
    rewrite Hunf. now apply feeds_agree.
  - (* the need is covered: initial bytes were passed, so both analyze *)
    apply Nat.ltb_ge in Hbelow.
    assert (Hsome : (0 <? length buffers) = true).
    { destruct Hstart as [Hne | Hsmall].
      - destruct buffers; [congruence | reflexivity].
      - rewrite length_app in Hbelow. unfold size in Hsmall.
        unfold data in Hbelow. apply Nat.ltb_lt. lia. }
    rewrite Hsome, feed_blocking_unfold.
    replace (max_needed (m_logic d) <=? length (data (m_buffer d) ++ buffers))
      with true by (symmetry; now apply Nat.leb_le).
    destruct (finished (analyze (data (m_buffer d) ++ buffers) (m_logic d)));
      cbn; (split; [reflexivity|]); split; auto; discriminate.
Qed.

End Agreement.

Lemma verdicts_prepend {L : Type} (evs : list (Event L)) (r : Run L) :
  deliveries evs = [] -> verdicts (prepend evs r) = verdicts r.
Proof.
  intros Hnone. unfold verdicts.
  now rewrite trace_prepend, deliveries_app, Hnone.
Qed.

(** X9. For a logic that honours the re-scan contract (the verdict waits
    for [max_needed] bytes, a second [analyze] of the same bytes changes
    nothing, [max_needed] does not move) and a failure-free transport, the
    two variants agree -- same verdict, same leftover bytes, and the
    contract check trips in one exactly when it trips in the other --
    whenever the caller passes initial bytes or the arena starts below the
    need.  (Bytes put in with [fill] that already cover the need, with no
    initial bytes, are the case left out.) *)
Theorem variants_agree_under_the_rescan_contract
    {L : Type} `{HandshakeDetectLogic L}
    (d : HandshakeDetectStreamType L) (ec : error_code)
    (buffers : list byte) (handler : nat) :
  verdict_waits_for_need L ->
  rescan_idempotent L ->
  constant_need L ->
  finished (m_logic d) = false ->
  data_only (m_next_layer d) = true ->
  (size (m_buffer d) < max_needed (m_logic d) ->
   verdicts (handshake d ec) = verdicts (async_handshake d handler) /\
   (status (handshake d ec) = Aborted <->
    status (async_handshake d handler) = Aborted)) /\
  (buffers <> [] \/ size (m_buffer d) < max_needed (m_logic d) ->
   verdicts (handshake_buffered d buffers ec)
   = verdicts (async_handshake_buffered d buffers handler) /\
   (status (handshake_buffered d buffers ec) = Aborted <->
    status (async_handshake_buffered d buffers handler) = Aborted)).
Proof.
  intros Hwait Hidem Hconst Hunf Honly.
  assert (Hsame : forall d' bytes,
             m_callback d' = m_callback d -> m_buffer d' = m_buffer d ->
             m_logic d' = m_logic d -> m_next_layer d' = m_next_layer d ->
             observe (do_handshake d' ec bytes) = observe (do_handshake d ec bytes)).
  { intros d' bytes Hcb Hbuf Hlog Hnext. unfold do_handshake.
    rewrite !(do_handshake_run_feed Hwait);
      cbn [m_next_layer m_callback m_buffer m_logic with_buffer];
      rewrite ?Hcb, ?Hbuf, ?Hlog, ?Hnext; try assumption; reflexivity. }
  split.
  - intros Hsmall. unfold handshake, async_handshake.
    rewrite verdicts_prepend, status_prepend by reflexivity.
    destruct (variants_agree_core Hwait Hidem Hconst
                (with_origHandler d (ErrorCall_of handler)) ec []
                Hunf Honly (or_intror Hsmall)) as [Hv Hs].
    rewrite <- Hv, <- Hs.
    rewrite !verdicts_observe, !status_observe.
    now rewrite (Hsame (with_origHandler d (ErrorCall_of handler)) []
                       eq_refl eq_refl eq_refl eq_refl).
  - intros Hstart. unfold handshake_buffered, async_handshake_buffered.
    rewrite verdicts_prepend, status_prepend by reflexivity.
    destruct (variants_agree_core Hwait Hidem Hconst
                (with_origBufferedHandler d (TransferCall_of handler)) ec buffers
                Hunf Honly Hstart) as [Hv Hs].
    rewrite <- Hv, <- Hs.
    rewrite !verdicts_observe, !status_observe.
    now rewrite (Hsame (with_origBufferedHandler d (TransferCall_of handler)) buffers
                       eq_refl eq_refl eq_refl eq_refl).
Qed.

Lemma X9_witness :
  verdicts (handshake (construct (L := PeekVerdict) keep_ec [Data [x47; x45]]) eof)
  = verdicts (async_handshake
                (construct (L := PeekVerdict) keep_ec [Data [x47; x45]]) 3).
Proof.
  assert (Hwait : verdict_waits_for_need PeekVerdict).
  { intros bytes s Hshort. destruct bytes; [reflexivity | simpl in Hshort; lia]. }
  assert (Hidem : rescan_idempotent PeekVerdict).
  { intros bytes s. destruct bytes; reflexivity. }
  assert (Hconst : constant_need PeekVerdict).
  { intros bytes s. reflexivity. }
  exact (proj1 (proj1 (variants_agree_under_the_rescan_contract
                         (construct (L := PeekVerdict) keep_ec [Data [x47; x45]])
                         eof [] 3 Hwait Hidem Hconst eq_refl eq_refl)
                      (le_n 1))).
Defined.

(** ** The arena when no verdict is reached *)

Section Unconsumed.

Context {L : Type} `{HandshakeDetectLogic L}.

Lemma do_handshake_run_unconsumed (d : HandshakeDetectStreamType L) ec :
  deliveries (trace (do_handshake_run d ec)) = [] ->
  data (m_buffer (final (do_handshake_run d ec)))
  = data (m_buffer d) ++ bytes_read (trace (do_handshake_run d ec)).
Proof.
  apply (do_handshake_run_ind
    (fun d _ r =>
       deliveries (trace r) = [] ->
       data (m_buffer (final r)) = data (m_buffer d) ++ bytes_read (trace r))).
  - intros d0 ec0 st d' evs Hbody Hnone. revert Hnone.
    invert_pass Hbody; try read_facts; cbn [trace final];
      unfold on_detect_event, conclusion_events;
      cbn [deliveries delivery_of bytes_read app]; intros Hnone;
      try discriminate; rewrite ?app_nil_r; try reflexivity.
    exact Hdata.
  - intros d0 ec0 d' ec' evs Hbody IH Hnone. revert Hnone.
    invert_pass Hbody. read_facts.
    rewrite trace_prepend, final_prepend. cbn [app deliveries delivery_of bytes_read].
    intros Hnone. rewrite (IH Hnone).
    cbn [m_buffer analysed with_logic]. now rewrite Hdata, app_assoc.
Qed.

Lemma async_resume_unconsumed (d : HandshakeDetectStreamType L) ec n :
  verdicts (async_resume d ec n) = [] ->
  data (m_buffer (final (async_resume d ec n)))
  = (if ec_not ec then data (commit n (m_buffer d)) else data (m_buffer d))
      ++ bytes_read (trace (async_resume d ec n)).
Proof.
  apply (async_resume_ind
    (fun d ec n r =>
       verdicts r = [] ->
       data (m_buffer (final r))
       = (if ec_not ec then data (commit n (m_buffer d)) else data (m_buffer d))
           ++ bytes_read (trace r))).
  - intros d0 ec0 n0 Hbad _. cbn [trace final].
    now rewrite Hbad, deliver_bytes_read, app_nil_r.
  - intros d0 ec0 n0 Hok _ Hnone. exfalso. revert Hnone.
    unfold verdicts. cbn [trace].
    rewrite !deliveries_app, digest_events_deliveries, deliver_deliveries.
    cbn. rewrite Hok. discriminate.
  - intros d0 ec0 n0 Hok _ _ _. cbn [trace final].
    rewrite Hok, bytes_read_app, digest_events_bytes_read, digested_buffer.
    cbn. now rewrite app_nil_r.
  - intros d0 ec0 n0 got ec' t' Hok _ _ Eread Hfit IH Hnone.
    rewrite verdicts_prepend in Hnone
      by (now rewrite deliveries_app, digest_events_deliveries).
    rewrite final_prepend, trace_prepend, (IH Hnone), Hok.
    rewrite !bytes_read_app, digest_events_bytes_read. cbn [app bytes_read].
    destruct (rearmed_facts d0 n0) as (_ & Hrd & _ & Hrs).
    destruct (ec_not ec') eqn:Hec'.
    + assert (Hfit' : length got <= buffer_size (m_buffer (rearmed d0 n0)))
        by (rewrite Hrs; exact Hfit).
      pose proof (written_committed_data (rearmed d0 n0) got t' Hfit') as Hw.
      unfold committed in Hw. cbn [m_buffer with_buffer] in Hw.
      now rewrite Hw, Hrd, app_nil_r, app_assoc.
    + pose proof (read_some_failed _ _ _ _ _ Eread Hec') as ->.
      now rewrite written_data, Hrd.
Qed.

End Unconsumed.

(** X10. The arena is consumed only at a verdict.  A blocking run that
    calls no callback (failed read or contract check), and a
    completion-driven run that delivers no verdict (error delivery or
    contract check), leave in the arena every byte ever committed: the
    bytes it held, the caller's initial bytes and all bytes read, in
    order. *)
Theorem arena_keeps_everything_without_a_verdict
    {L : Type} `{HandshakeDetectLogic L}
    (d : HandshakeDetectStreamType L) (ec : error_code) (buffers : list byte) :
  (deliveries (trace (do_handshake d ec buffers)) = [] ->
   data (m_buffer (final (do_handshake d ec buffers)))
   = data (m_buffer d) ++ buffers
       ++ bytes_read (trace (do_handshake d ec buffers))) /\
  (verdicts (async_run (async_do_handshake d buffers)) = [] ->
   data (m_buffer (final (async_run (async_do_handshake d buffers))))
   = data (m_buffer d) ++ buffers
       ++ bytes_read (trace (async_run (async_do_handshake d buffers)))).
Proof.
  split.
  - intros Hnone. unfold do_handshake in *.
    rewrite (do_handshake_run_unconsumed _ _ Hnone).
    cbn [m_buffer with_buffer]. now rewrite transfer_data, app_assoc.
  - destruct (async_do_handshake_resume d buffers) as (sb & _ & Hdata & ->).
    intros Hnone. rewrite (async_resume_unconsumed _ _ _ Hnone).
    cbn [m_buffer with_buffer ec_not error_code_default ec_value Z.eqb].
    now rewrite Hdata, app_assoc.
Qed.

Lemma X10_witness :
  data (m_buffer (final (do_handshake (H := CountingLogic)
                           counting_detector_holding_one eof [x47])))
  = [x16] ++ [x47] ++ [].
Proof.
  exact (proj1 (arena_keeps_everything_without_a_verdict (H := CountingLogic)
                  counting_detector_holding_one eof [x47])
               eq_refl).
Defined.

(** ** The zero-read shortcut as the code has it *)

Section Shortcut.

Context {L : Type} `{HandshakeDetectLogic L}.

Lemma async_resume_verdict (d : HandshakeDetectStreamType L) ec n :
  ec_not ec = true ->
  finished (m_logic (digested d n)) = true ->
  async_resume d ec n
  = mk_Run Delivered (concluded (digested d n))
      (digest_events d n ++ conclusion_events (digested d n)
         ++ deliver (concluded (digested d n)) ec).
Proof.
  intros Hec Hfin. unfold async_resume, async_run.
  pose proof (on_async_read_some_resumed d ec n) as R.
  inversion R as [Hbad Heq | Hok Hfin' Heq | Hok Hfin' Hlt Heq | Hok Hfin' Hge' Heq];
    try congruence.
  unfold io_service_run, prepend; simpl. now rewrite app_nil_r.
Qed.

Lemma async_resume_shortcut (d : HandshakeDetectStreamType L) n :
  0 < n ->
  max_needed (m_logic d) <= size (commit n (m_buffer d)) ->
  reads (trace (async_resume d error_code_default n)) = [] /\
  observe (async_resume d error_code_default n)
  = if finished (analyze (data (commit n (m_buffer d))) (m_logic d)) then
      mk_Outcome Delivered
        [(analyze (data (commit n (m_buffer d))) (m_logic d), error_code_default,
          skipn (bytes_consumed (analyze (data (commit n (m_buffer d))) (m_logic d)))
                (data (commit n (m_buffer d))))]
        (analyze (data (commit n (m_buffer d))) (m_logic d))
        (skipn (bytes_consumed (analyze (data (commit n (m_buffer d))) (m_logic d)))
               (data (commit n (m_buffer d))))
    else
      mk_Outcome Aborted [] (analyze (data (commit n (m_buffer d))) (m_logic d))
                 (data (commit n (m_buffer d))).
Proof.
  intros Hn Hge.
  assert (Hlogic : m_logic (digested d n)
                   = analyze (data (commit n (m_buffer d))) (m_logic d)).
  { rewrite digested_logic.
    replace (0 <? n) with true by (symmetry; now apply Nat.ltb_lt).
    reflexivity. }
  destruct (finished (analyze (data (commit n (m_buffer d))) (m_logic d))) eqn:Hfin.
  - rewrite async_resume_verdict by (try reflexivity; now rewrite Hlogic).
    unfold observe. cbn [status final trace].
    rewrite !reads_app, !deliveries_app, digest_events_reads, deliver_reads,
      digest_events_deliveries, deliver_deliveries.
    cbn [concluded m_logic m_buffer with_buffer app deliveries delivery_of
         conclusion_events].
    rewrite consume_data, digested_buffer, Hlogic. split; reflexivity.
  - rewrite async_resume_need_met
      by (try reflexivity; try assumption; now rewrite Hlogic).
    unfold observe. cbn [status final trace].
    rewrite reads_app, deliveries_app, digest_events_reads,
      digest_events_deliveries, digested_buffer, Hlogic.
    split; reflexivity.
Qed.

End Shortcut.

(** X11. When the arena together with the caller's initial bytes already
    covers [max_needed], no transport read is issued: the blocking variant
    analyzes once and either delivers the verdict or stops on the contract
    check, whatever the logic; and the completion-driven variant does the
    same provided the caller passed at least one initial byte (that is
    what makes its bootstrap analyze). *)
Theorem covered_need_is_settled_without_reading
    {L : Type} `{HandshakeDetectLogic L}
    (d : HandshakeDetectStreamType L) (ec : error_code) (buffers : list byte) :
  max_needed (m_logic d) <= size (m_buffer d) + length buffers ->
  (reads (trace (do_handshake d ec buffers)) = [] /\
   observe (do_handshake d ec buffers)
   = if finished (analyze (data (m_buffer d) ++ buffers) (m_logic d)) then
       verdict_outcome (m_callback d) (data (m_buffer d) ++ buffers)
                       (analyze (data (m_buffer d) ++ buffers) (m_logic d))
     else
       mk_Outcome Aborted [] (analyze (data (m_buffer d) ++ buffers) (m_logic d))
                  (data (m_buffer d) ++ buffers)) /\
  (buffers <> [] ->
   reads (trace (async_run (async_do_handshake d buffers))) = [] /\
   observe (async_run (async_do_handshake d buffers))
   = if finished (analyze (data (m_buffer d) ++ buffers) (m_logic d)) then
       mk_Outcome Delivered
         [(analyze (data (m_buffer d) ++ buffers) (m_logic d), error_code_default,
           skipn (bytes_consumed (analyze (data (m_buffer d) ++ buffers) (m_logic d)))
                 (data (m_buffer d) ++ buffers))]
         (analyze (data (m_buffer d) ++ buffers) (m_logic d))
         (skipn (bytes_consumed (analyze (data (m_buffer d) ++ buffers) (m_logic d)))
                (data (m_buffer d) ++ buffers))
     else
       mk_Outcome Aborted [] (analyze (data (m_buffer d) ++ buffers) (m_logic d))
                  (data (m_buffer d) ++ buffers)).
Proof.
  intros Hge. split.
  - unfold do_handshake.
    set (d0 := with_buffer d (transfer buffers (m_buffer d))).
    assert (Hd : data (m_buffer d0) = data (m_buffer d) ++ buffers)
      by (subst d0; cbn [m_buffer with_buffer]; apply transfer_data).
    assert (Hmet : max_needed (m_logic d0) <= size (m_buffer d0)).
    { unfold size. change (input_seq (m_buffer d0)) with (data (m_buffer d0)).
      rewrite Hd, length_app. exact Hge. }
    rewrite (do_handshake_run_need_met d0 error_code_default eq_refl Hmet).
    assert (Hl : m_logic (analysed d0)
                 = analyze (data (m_buffer d) ++ buffers) (m_logic d))
      by (unfold analysed; cbn [m_logic with_logic]; now rewrite Hd).
    rewrite Hl.
    destruct (finished (analyze (data (m_buffer d) ++ buffers) (m_logic d))).
    + split; [reflexivity|].
      etransitivity; [exact (observe_verdict d0 [] eq_refl)|].
      now rewrite Hd.
    + split; [reflexivity|]. unfold observe.
      cbn [status final trace deliveries delivery_of].
      rewrite Hl. cbn [analysed m_buffer with_logic]. now rewrite Hd.
  - intros Hne.
    destruct (async_do_handshake_resume d buffers) as (sb & _ & Hdata & ->).
    assert (Hn : 0 < length buffers)
      by (destruct buffers; [congruence | simpl; lia]).
    assert (Hsz : max_needed (m_logic (with_buffer d sb))
                  <= size (commit (length buffers) (m_buffer (with_buffer d sb)))).
    { cbn [m_logic m_buffer with_buffer]. unfold size.
      change (input_seq (commit (length buffers) sb))
        with (data (commit (length buffers) sb)).
      rewrite Hdata, length_app. exact Hge. }
    destruct (async_resume_shortcut (with_buffer d sb) (length buffers) Hn Hsz) as [Hr Ho].
    cbn [m_logic m_buffer with_buffer] in Ho. rewrite Hdata in Ho.
    split; assumption.
Qed.

Lemma X11_witness :
  reads (trace (do_handshake filled_peek_detector eof [])) = [] /\
  reads (trace (async_run (async_do_handshake
                             (construct (L := PeekVerdict) keep_ec []) [x16])))
  = [].
Proof.
  split.
  - exact (proj1 (proj1 (covered_need_is_settled_without_reading
                           filled_peek_detector eof [] (le_n 1)))).
  - exact (proj1 (proj2 (covered_need_is_settled_without_reading
                           (construct (L := PeekVerdict) keep_ec []) eof [x16]
                           (le_n 1))
                        ltac:(discriminate))).
Defined.
